(** * brainstorm.data_iterators: the shape validator and the three iterators

    A shallow embedding of [brainstorm/data_iterators.py].  Python values are
    modelled as far as the module looks at them: an array is a strided view
    on a flat buffer that lives in a heap, a named dataset is the keyword
    dictionary in its iteration order, a generator is run to exhaustion and
    described by the batches it yields and the way it ends.  The handler,
    the random generator and numpy's slicing are not part of the module:
    they are modelled by what the module asks of them.  Where the module
    computes with machine numbers, so does the model: the sizes and slice
    bounds of [Minibatches] are [numpy.int64] values that wrap around, and
    its count of chunks is the ceiling of a binary64 quotient.  The runs of
    the iterators record the values sent to the progress reporter; the
    reporter itself comes after them, its clock readings being inputs. *)

From Stdlib Require Import List String Ascii Arith ZArith Bool Lia Permutation Sorted.
From Stdlib Require Import DecimalString.
From Stdlib Require Floats Uint63.
Import ListNotations.

Local Open Scope string_scope.
Local Open Scope list_scope.
Local Open Scope nat_scope.

(** String concatenation, kept apart from the append of lists. *)
Infix "+++" := String.append (right associativity, at level 60).

(** ** Exceptions and results *)

Inductive exn : Type :=
| IteratorValidationError (msg : string)
| ValueError (msg : string)
| ZeroDivisionError (msg : string)
| UnboundLocalError (msg : string)
| IndexError (msg : string)
| OverflowError (msg : string).

Inductive result (A : Type) : Type :=
| Ok (a : A)
| Raise (e : exn).

Arguments Ok {A} a.
Arguments Raise {A} e.

Definition bind {A B : Type} (r : result A) (k : A -> result B) : result B :=
  match r with
  | Ok a => k a
  | Raise e => Raise e
  end.

Notation "x <- r ;; k" := (bind r (fun x => k))
  (at level 61, r at next level, right associativity).

Definition is_validation_error {A : Type} (r : result A) : Prop :=
  exists msg, r = Raise (IteratorValidationError msg).

(** ** Strings: [str.format], [repr] and substrings *)

(** A string is a sequence of characters with code points below 256. *)

Module PyStr.

Definition str_of_nat (n : nat) : string :=
  NilEmpty.string_of_uint (Nat.to_uint n).

Definition dquote : ascii := ascii_of_nat 34.
Definition squote : ascii := ascii_of_nat 39.
Definition backslash : ascii := ascii_of_nat 92.

Fixpoint mem_char (c : ascii) (s : string) : bool :=
  match s with
  | EmptyString => false
  | String d s' => Ascii.eqb c d || mem_char c s'
  end.

Definition hex_digit (n : nat) : ascii :=
  if n <? 10 then ascii_of_nat (48 + n) else ascii_of_nat (87 + n).

(** [str.isprintable] of a character below 256: the controls (0 to 31 and
    127 to 159), the no-break space (160) and the soft hyphen (173) are not
    printable. *)
Definition isprintable (n : nat) : bool :=
  negb ((n <? 32) || ((127 <=? n) && (n <=? 160)) || (n =? 173)).

(** One character of [repr(str)] for the quote character [q]. *)
Definition escape_char (q c : ascii) : string :=
  let n := nat_of_ascii c in
  if Ascii.eqb c q || Ascii.eqb c backslash then String backslash (String c EmptyString)
  else if n =? 9 then String backslash "t"
  else if n =? 10 then String backslash "n"
  else if n =? 13 then String backslash "r"
  else if negb (isprintable n) then
    String backslash (String "x" (String (hex_digit (n / 16))
                                   (String (hex_digit (n mod 16)) EmptyString)))
  else String c EmptyString.

Fixpoint escape (q : ascii) (s : string) : string :=
  match s with
  | EmptyString => EmptyString
  | String c s' => escape_char q c +++ escape q s'
  end.

(** [repr] of a string: single quotes, unless the string holds a single
    quote and no double quote. *)
Definition repr_str (s : string) : string :=
  let q := if mem_char squote s && negb (mem_char dquote s) then dquote else squote in
  String q (escape q s +++ String q EmptyString).

Definition repr_item (kv : string * nat) : string :=
  repr_str (fst kv) +++ ": " +++ str_of_nat (snd kv).

Fixpoint join (sep : string) (l : list string) : string :=
  match l with
  | [] => EmptyString
  | [s] => s
  | s :: rest => s +++ sep +++ join sep rest
  end.

(** [str] of a dictionary from names to integers. *)
Definition repr_dict (d : list (string * nat)) : string :=
  "{" +++ join ", " (map repr_item d) +++ "}".

Definition is_substring (s t : string) : Prop :=
  exists pre post, t = pre +++ s +++ post.

Fixpoint starts_with (s t : string) : bool :=
  match s, t with
  | EmptyString, _ => true
  | String a s', String b t' => Ascii.eqb a b && starts_with s' t'
  | String _ _, EmptyString => false
  end.

Fixpoint contains (s t : string) : bool :=
  starts_with s t ||
  match t with
  | EmptyString => false
  | String _ t' => contains s t'
  end.

End PyStr.

(** ** Arrays, values and named datasets *)

(** An array class: [numpy.ndarray], a device array type, ... *)
Definition array_class := nat.

(** An array is a view: the buffer it reads, the offset of its first element
    and one extent and one stride per axis. *)
Record ndarray : Type := mk_ndarray {
  cls : array_class;
  base : nat;
  offset : nat;
  shape : list nat;
  strides : list nat
}.

Definition ndim (a : ndarray) : nat := List.length (shape a).

(** The values this module meets: arrays, and values that have no [shape]
    attribute, among them a dictionary of arrays. *)
Inductive pyobj : Type :=
| PArray (a : ndarray)
| PList (l : list nat)
| PNone
| PDict (d : list (string * ndarray)).

Definition hasattr_shape (v : pyobj) : bool :=
  match v with
  | PArray _ => true
  | _ => false
  end.

(** The classes of these values. *)
Inductive pyclass : Type :=
| ArrayClass (c : array_class)
| ListClass
| NoneType
| DictClass.

Definition type_of (v : pyobj) : pyclass :=
  match v with
  | PArray a => ArrayClass (cls a)
  | PList _ => ListClass
  | PNone => NoneType
  | PDict _ => DictClass
  end.

Definition pyclass_eqb (c1 c2 : pyclass) : bool :=
  match c1, c2 with
  | ArrayClass a, ArrayClass b => a =? b
  | ListClass, ListClass => true
  | NoneType, NoneType => true
  | DictClass, DictClass => true
  | _, _ => false
  end.

(** [isinstance(v, c)]: none of these classes is a subclass of another. *)
Definition isinstance (v : pyobj) (c : pyclass) : bool :=
  pyclass_eqb (type_of v) c.

(** [**named_data]: the keyword dictionary, in iteration order. *)
Definition named_data := list (string * pyobj).

(** ** The shape validator *)

Definition no_shape_msg (name : string) : string :=
  name +++ " has a wrong type. (no shape attribute)".

Definition rank_msg : string :=
  "All inputs have to have at least 3 dimensions, where the " +++
  "first two are time_size and batch_size.".

Definition mismatch_msg (nr_sequences : list (string * nat)) : string :=
  "The number of sequences of all inputs must be equal, but got " +++
  PyStr.repr_dict nr_sequences.

(** The loop of [_assert_correct_data_format]: [nr_sequences] is the
    dictionary filled so far. *)
Fixpoint collect_nr_sequences (items : named_data) (nr_sequences : list (string * nat))
  : result (list (string * nat)) :=
  match items with
  | [] => Ok nr_sequences
  | (name, data) :: rest =>
      match data with
      | PArray a =>
          if ndim a <? 3 then
            Raise (IteratorValidationError rank_msg)
          else
            collect_nr_sequences rest (nr_sequences ++ [(name, nth 1 (shape a) 0)])
      | _ => Raise (IteratorValidationError (no_shape_msg name))
      end
  end.

(** [min] and [max] of a collection: [None] stands for the [ValueError] on
    an empty one. *)
Definition py_min (l : list nat) : option nat :=
  match l with
  | [] => None
  | x :: rest => Some (fold_left Nat.min rest x)
  end.

Definition py_max (l : list nat) : option nat :=
  match l with
  | [] => None
  | x :: rest => Some (fold_left Nat.max rest x)
  end.

Definition empty_min_msg : string := "min() arg is an empty sequence".

Definition _assert_correct_data_format (data : named_data) : result nat :=
  nr_sequences <- collect_nr_sequences data [] ;;
  match py_min (map snd nr_sequences), py_max (map snd nr_sequences) with
  | Some lo, Some hi =>
      if negb (lo =? hi) then
        Raise (IteratorValidationError (mismatch_msg nr_sequences))
      else Ok lo
  | _, _ => Raise (ValueError empty_min_msg)
  end.


(** ** The heap, the handler and the array operations the iterators use *)

(** Element values are only moved around by this module, never computed
    with: an integer stands for one element. *)
Definition scalar := Z.
Definition buffer := list scalar.
Definition heap := list buffer.

Definition prod (l : list nat) : nat := fold_right Nat.mul 1 l.
Definition sum (l : list nat) : nat := fold_right Nat.add 0 l.

(** [a.size] *)
Definition size (a : ndarray) : nat := prod (shape a).

(** Row-major strides of a freshly laid out shape, in elements. *)
Fixpoint c_strides (shp : list nat) : list nat :=
  match shp with
  | [] => []
  | _ :: rest => prod rest :: c_strides rest
  end.

(** The addresses of the elements of a view, in row-major order. *)
Fixpoint addresses (off : nat) (shp strd : list nat) : list nat :=
  match shp with
  | [] => [off]
  | n :: shp' =>
      flat_map (fun i => addresses (off + i * hd 0 strd) shp' (tl strd)) (seq 0 n)
  end.




Definition load (mem : heap) (b addr : nat) : scalar :=
  nth addr (nth b mem []) 0%Z.

Fixpoint list_set {A : Type} (l : list A) (i : nat) (x : A) : list A :=
  match l, i with
  | [], _ => []
  | _ :: l', 0 => x :: l'
  | y :: l', S i' => y :: list_set l' i' x
  end.

Definition store (mem : heap) (b addr : nat) (x : scalar) : heap :=
  list_set mem b (list_set (nth b mem []) addr x).



(** The elements of a view, in row-major order. *)
Definition to_list (mem : heap) (a : ndarray) : list scalar :=
  map (load mem (base a)) (addresses (offset a) (shape a) (strides a)).

(** [a[lo:hi]]: a basic slice of the first axis, clipped to its extent; the
    result is a view on the same buffer. *)
Definition getitem_range (a : ndarray) (lo hi : nat) : result ndarray :=
  match shape a with
  | n :: rest =>
      let lo' := Nat.min lo n in
      let hi' := Nat.min hi n in
      Ok {| cls := cls a; base := base a;
            offset := offset a + lo' * nth 0 (strides a) 0;
            shape := (hi' - lo') :: rest; strides := strides a |}
  | [] => Raise (IndexError "too many indices for array")
  end.

(** [a[:, lo:hi]]: a basic slice of the second axis. *)
Definition getitem_cols (a : ndarray) (lo hi : nat) : result ndarray :=
  match shape a with
  | t :: n :: rest =>
      let lo' := Nat.min lo n in
      let hi' := Nat.min hi n in
      Ok {| cls := cls a; base := base a;
            offset := offset a + lo' * nth 1 (strides a) 0;
            shape := t :: (hi' - lo') :: rest; strides := strides a |}
  | _ => Raise (IndexError "too many indices for array")
  end.

(** [a.reshape(shp)] of a flat, contiguous view (the only use here): the
    same elements under row-major strides. *)
Definition reshape (a : ndarray) (shp : list nat) : result ndarray :=
  if size a =? prod shp then
    Ok {| cls := cls a; base := base a; offset := offset a;
          shape := shp; strides := c_strides shp |}
  else Raise (ValueError "cannot reshape array")%string.

(** The backend handler: its marker type [array_type] is an array class. *)
Record handler : Type := { array_type : array_class }.

Definition marker (h : handler) : pyclass := ArrayClass (array_type h).

(** Modelled from the spec: the handler's [allocate], which is not part of
    this module.  It produces a flat buffer of [n] elements of the handler's
    array type, in storage of its own. *)
Definition allocate (h : handler) (mem : heap) (n : nat) : heap * ndarray :=
  (mem ++ [repeat 0%Z n],
   {| cls := array_type h; base := List.length mem; offset := 0;
      shape := [n]; strides := [1] |}).

(** Modelled from the spec: the handler's [set_from_numpy], which is not part
    of this module.  It copies the elements of [src] into [dst]; both have the
    same shape wherever the iterators call it. *)
Definition set_from_numpy (mem : heap) (dst src : ndarray) : heap :=
  fold_left (fun m (w : nat * scalar) => store m (base dst) (fst w) (snd w))
            (combine (addresses (offset dst) (shape dst) (strides dst)) (to_list mem src))
            mem.

(** ** Seeded randomness *)

(** Modelled from the spec: [brainstorm.randomness] is not part of this
    module.  A generator is built from a seed and [shuffle] reorders a list,
    advancing the generator. *)
Class RandomState : Type := {
  rng : Type;
  seeded : nat -> rng;
  rnd_shuffle : rng -> list nat -> rng * list nat
}.

Definition shuffle_permutes `{RandomState} : Prop :=
  forall (g : rng) (l : list nat), Permutation l (snd (rnd_shuffle g l)).

(** Modelled from the spec: [Seedable.__init__].  Without a seed, one is
    drawn from the global generator; [entropy] is that draw. *)
Definition Seedable_init `{RandomState} (seed : option nat) (entropy : nat) : rng :=
  match seed with
  | Some s => seeded s
  | None => seeded entropy
  end.

(** A linear congruential generator that shuffles by inserting each element
    at a drawn position. *)
Definition lcg_next (g : N) : N := ((g * 1103515245 + 12345) mod 2147483648)%N.

Fixpoint lcg_shuffle (g : N) (l : list nat) : N * list nat :=
  match l with
  | [] => (g, [])
  | x :: rest =>
      let (g', l') := lcg_shuffle g rest in
      let k := N.to_nat (lcg_next g' mod N.of_nat (S (List.length l')))%N in
      (lcg_next g', firstn k l' ++ x :: skipn k l')
  end.

Definition lcg : RandomState :=
  {| rng := N; seeded := N.of_nat; rnd_shuffle := lcg_shuffle |}.

(** ** Generators *)

Definition batch := list (string * ndarray).

(** A generator run to exhaustion: whether it draws a progress bar (rather
    than staying silent), the buffers it allocated, each yielded batch with
    the heap as the consumer sees it, the values sent to the progress
    reporter, and the exception that ended it, if any; [started] tells
    whether it came as far as [print(next(p_bar))]. *)
Record run : Type := {
  with_bar : bool;
  started : bool;
  allocated : list ndarray;
  yielded : list (batch * heap);
  sent : list nat;
  raised : option exn
}.

(** Staging through the flat buffer [arr]: for each entry, a slot of [arr]
    starting at [j] is reshaped, filled and stored under the entry's name.
    [Undivided.__call__] runs this loop on the arrays themselves, the other
    two iterators on a slice of each array. *)
Fixpoint copy_loop (slice : ndarray -> result ndarray) (arr : ndarray) (j : nat)
         (mem : heap) (items : batch) (device_data : batch) : result (batch * heap) :=
  match items with
  | [] => Ok (device_data, mem)
  | (key, value) :: rest =>
      val_s <- slice value ;;
      flat <- getitem_range arr j (j + size val_s) ;;
      dst <- reshape flat (shape val_s) ;;
      copy_loop slice arr (j + size val_s) (set_from_numpy mem dst val_s) rest
                (device_data ++ [(key, dst)])
  end.

(** The dictionary comprehension of the zero-copy path. *)
Fixpoint view_loop (slice : ndarray -> result ndarray) (items : batch) : result batch :=
  match items with
  | [] => Ok []
  | (k, v) :: rest =>
      v_s <- slice v ;;
      tail <- view_loop slice rest ;;
      Ok ((k, v_s) :: tail)
  end.

(** [for i, idx in enumerate(indices)]: [body] builds the batch for [idx],
    [progress i] is what is sent to the reporter after the yield. *)
Fixpoint for_each (body : nat -> heap -> result (batch * heap)) (progress : nat -> nat)
         (i : nat) (indices : list nat) (mem : heap)
  : list (batch * heap) * list nat * option exn :=
  match indices with
  | [] => ([], [], None)
  | idx :: rest =>
      match body idx mem with
      | Raise e => ([], [], Some e)
      | Ok (device_data, mem') =>
          let '(ys, ps, r) := for_each body progress (S i) rest mem' in
          ((device_data, mem') :: ys, progress i :: ps, r)
      end
  end.

(** [self.data] of an instance: the arrays of a dictionary the validator
    accepted, under their names and in their order. *)
Fixpoint arrays_of (d : named_data) : batch :=
  match d with
  | [] => []
  | (k, PArray a) :: rest => (k, a) :: arrays_of rest
  | _ :: rest => arrays_of rest
  end.

(** [all([isinstance(v, handler.array_type) for v in self.data.values()])] *)
Definition resident (h : handler) (d : batch) : bool :=
  forallb (fun kv => isinstance (PArray (snd kv)) (marker h)) d.

(** [d.shape[0] * np.prod(d.shape[2:])] *)
Definition column_size (d : ndarray) : nat :=
  nth 0 (shape d) 0 * prod (skipn 2 (shape d)).

(** [(self.verbose is None and verbose) or self.verbose] *)
Definition show_progress (self_verbose : option bool) (verbose : bool) : bool :=
  match self_verbose with
  | None => verbose
  | Some v => v
  end.

Module Undivided.

Record t : Type := {
  data : batch;
  total_size : nat
}.

(** [Undivided.__init__], called with the arrays as keyword arguments. *)
Definition __init__ (named : named_data) : result t :=
  _ <- _assert_correct_data_format named ;;
  let data := arrays_of named in
  Ok {| data := data; total_size := sum (map (fun kv => size (snd kv)) data) |}.

(** [Undivided.__call__(handler, verbose)], run to exhaustion.  The test is
    made on the dictionary [self.data].  Its first branch yields that
    dictionary and, resumed, reaches [yield device_data] with the name
    unbound; its second branch fills one buffer and yields the slots. *)
Definition __call__ (self : t) (h : handler) (verbose : bool) (mem : heap) : run :=
  if isinstance (PDict (data self)) (marker h) then
    {| with_bar := false; started := false; allocated := [];
       yielded := [(data self, mem)]; sent := [];
       raised := Some (UnboundLocalError
                         "local variable 'device_data' referenced before assignment") |}
  else
    let (mem1, arr) := allocate h mem (total_size self) in
    match copy_loop (fun v => Ok v) arr 0 mem1 (data self) [] with
    | Ok (device_data, mem2) =>
        {| with_bar := false; started := false; allocated := [arr];
           yielded := [(device_data, mem2)]; sent := []; raised := None |}
    | Raise e =>
        {| with_bar := false; started := false; allocated := [arr]; yielded := [];
           sent := []; raised := Some e |}
    end.

End Undivided.

(** [np.arange(n)] *)
Definition arange (n : nat) : list nat := seq 0 n.

(** ** Machine numbers *)

(** A [numpy.int64] holds an integer from -2^63 up to 2^63 - 1; a result
    beyond that wraps around: [int64_wrap z] is the value kept for the exact
    result [z]. *)
Definition int64_wrap (z : Z) : Z := ((z + 2 ^ 63) mod 2 ^ 64 - 2 ^ 63)%Z.

(** A Python integer that meets a [numpy.int64] in an operation is made one
    itself; if it does not fit, the operation raises (NumPy 2). *)
Definition int64_of_int (n : nat) : result Z :=
  if (Z.of_nat n <? 2 ^ 63)%Z then Ok (Z.of_nat n)
  else Raise (OverflowError ("Python integer " +++ PyStr.str_of_nat n +++
                             " out of bounds for int64")).

(** A finite binary64 number that is not negative: [mantissa * 2 ^ exponent]. *)
Record binary64 : Type := { mantissa : Z; exponent : Z }.

(** The integer nearest to [num / den], the even one of two that are equally
    near. *)
Definition round_half_even (num den : Z) : Z :=
  let q := (num / den)%Z in
  let r := (num mod den)%Z in
  if (2 * r <? den)%Z then q
  else if (den <? 2 * r)%Z then (q + 1)%Z
  else if Z.even q then q else (q + 1)%Z.

(** [a / (b * 2 ^ e)] as a fraction of integers. *)
Definition scaled_num (a e : Z) : Z := if (e <? 0)%Z then (a * 2 ^ (- e))%Z else a.
Definition scaled_den (b e : Z) : Z := if (e <? 0)%Z then b else (b * 2 ^ e)%Z.

(** [a / b] for Python integers ([a] not negative, [b] positive or 0) under
    true division: the binary64 number nearest to the exact quotient, ties
    going to the even mantissa.  The exponent is chosen so that the
    mantissa has 53 bits, or is the least exponent of binary64 if the
    quotient is that small; a quotient of 2^1024 or more after rounding
    raises [OverflowError]. *)
Definition true_divide (a b : Z) : result binary64 :=
  if (b =? 0)%Z then Raise (ZeroDivisionError "division by zero")
  else if (a =? 0)%Z then Ok {| mantissa := 0; exponent := 0 |}
  else
    let e0 := (Z.log2 a - Z.log2 b - 53)%Z in
    let e1 := if (scaled_num a e0 / scaled_den b e0 <? 2 ^ 53)%Z
              then e0 else (e0 + 1)%Z in
    let e := Z.max e1 (- 1074) in
    let m := round_half_even (scaled_num a e) (scaled_den b e) in
    if ((0 <=? e) && (2 ^ 1024 <=? m * 2 ^ e))%Z
    then Raise (OverflowError "integer division result too large for a float")
    else Ok {| mantissa := m; exponent := e |}.

(** [math.ceil] *)
Definition math_ceil (x : binary64) : Z :=
  if (0 <=? exponent x)%Z then (mantissa x * 2 ^ exponent x)%Z
  else (- ((- mantissa x) / 2 ^ (- exponent x)))%Z.

(** [int(math.ceil(n / b))] under true division. *)
Definition ceil_div (n b : nat) : result nat :=
  x <- true_divide (Z.of_nat n) (Z.of_nat b) ;;
  Ok (Z.to_nat (math_ceil x)).

(** A bound of a basic slice on an axis of extent [n]: a negative bound
    counts from the end, and bounds are clipped to the axis. *)
Definition slice_bound (n : nat) (z : Z) : nat :=
  if (z <? 0)%Z then Z.to_nat (Z.max 0 (z + Z.of_nat n)) else Nat.min (Z.to_nat z) n.

(** Modelled from the spec: the handler's [allocate] for a count that is a
    machine integer.  No buffer has a negative count of elements: the
    allocation fails then, as that of a numpy array does. *)
Definition allocate_int64 (h : handler) (mem : heap) (n : Z) : result (heap * ndarray) :=
  if (n <? 0)%Z then Raise (ValueError "negative dimensions are not allowed")
  else Ok (allocate h mem (Z.to_nat n)).

Module Online.

Record t `{RandomState} : Type := {
  rnd : rng;
  nr_sequences : nat;
  data : batch;
  shuffle : bool;
  verbose : option bool;
  sample_size : nat
}.

(** [Online.__init__] with its [shuffle], [verbose] and [seed], and the
    arrays as keyword arguments. *)
Definition __init__ `{RandomState} (shuffle : bool) (verbose : option bool)
           (seed : option nat) (entropy : nat) (named : named_data) : result t :=
  let rnd := Seedable_init seed entropy in
  nr_sequences <- _assert_correct_data_format named ;;
  let data := arrays_of named in
  Ok {| rnd := rnd; nr_sequences := nr_sequences; data := data;
        shuffle := shuffle; verbose := verbose;
        sample_size := sum (map (fun kv => column_size (snd kv)) data) |}.

(** The body of the loop for the sequence [idx]. *)
Definition body `{RandomState} (self : t) (need_copy : bool) (arr : option ndarray)
           (idx : nat) (mem : heap) : result (batch * heap) :=
  let slice := fun value => getitem_cols value idx (idx + 1) in
  if need_copy then
    match arr with
    | Some arr => copy_loop slice arr 0 mem (data self) []
    | None => Raise (UnboundLocalError "local variable 'arr' referenced before assignment")
    end
  else
    device_data <- view_loop slice (data self) ;;
    Ok (device_data, mem).

(** [Online.__call__(handler, verbose)], run to exhaustion: the run, the
    index sequence it went through and the instance with its generator
    advanced. *)
Definition __call__ `{RandomState} (self : t) (h : handler) (verbose_arg : bool) (mem : heap)
  : run * list nat * t :=
  let bar := show_progress (verbose self) verbose_arg in
  let need_copy := negb (resident h (data self)) in
  let '(mem1, arr) :=
    if need_copy then
      let (m, a) := allocate h mem (sample_size self) in (m, Some a)
    else (mem, None) in
  let indices := arange (nr_sequences self) in
  let '(rnd', indices) :=
    if shuffle self then rnd_shuffle (rnd self) indices else (rnd self, indices) in
  let '(ys, ps, r) := for_each (body self need_copy arr) (fun i => i + 1) 0 indices mem1 in
  ({| with_bar := bar; started := true;
      allocated := match arr with Some a => [a] | None => [] end;
      yielded := ys; sent := ps; raised := r |},
   indices,
   {| rnd := rnd'; nr_sequences := nr_sequences self; data := data self;
      shuffle := shuffle self; verbose := verbose self;
      sample_size := sample_size self |}).

End Online.

Module Minibatches.

Record t `{RandomState} : Type := {
  rnd : rng;
  nr_sequences : nat;
  data : batch;
  shuffle : bool;
  verbose : option bool;
  batch_size : nat;
  sample_size : Z
}.

(** [d.shape[0] * np.prod(d.shape[2:]) * batch_size]: [np.prod] gives a
    [numpy.int64], and so do the two products. *)
Definition staging_term (d : ndarray) (batch_size : nat) : result Z :=
  let p := int64_wrap (Z.of_nat (prod (skipn 2 (shape d)))) in
  let c := int64_wrap (Z.of_nat (nth 0 (shape d) 0) * p) in
  b <- int64_of_int batch_size ;;
  Ok (int64_wrap (c * b)).

(** [sum(... for d in self.data.values())], with [acc] for the sum so far. *)
Fixpoint staging_size (data : batch) (batch_size : nat) (acc : Z) : result Z :=
  match data with
  | [] => Ok acc
  | (_, d) :: rest =>
      term <- staging_term d batch_size ;;
      staging_size rest batch_size (int64_wrap (acc + term))
  end.

(** [Minibatches.__init__] with its [batch_size], [shuffle], [verbose] and
    [seed], and the arrays as keyword arguments. *)
Definition __init__ `{RandomState} (batch_size : nat) (shuffle : bool)
           (verbose : option bool) (seed : option nat) (entropy : nat)
           (named : named_data) : result t :=
  let rnd := Seedable_init seed entropy in
  nr_sequences <- _assert_correct_data_format named ;;
  let data := arrays_of named in
  sample_size <- staging_size data batch_size 0 ;;
  Ok {| rnd := rnd; nr_sequences := nr_sequences; data := data;
        shuffle := shuffle; verbose := verbose; batch_size := batch_size;
        sample_size := sample_size |}.

(** The bounds of [slice(idx * batch_size, (idx + 1) * batch_size)]: [idx]
    is an element of [np.arange(...)], a [numpy.int64], which [batch_size]
    fits beside (or construction had failed); the bounds are resolved on an
    axis of extent [n]. *)
Definition chunk_start `{RandomState} (self : t) (n idx : nat) : nat :=
  slice_bound n (int64_wrap (Z.of_nat idx * Z.of_nat (batch_size self))).

Definition chunk_stop `{RandomState} (self : t) (n idx : nat) : nat :=
  slice_bound n (int64_wrap (int64_wrap (Z.of_nat idx + 1) * Z.of_nat (batch_size self))).

(** The body of the loop for the chunk [idx]. *)
Definition body `{RandomState} (self : t) (need_copy : bool) (arr : option ndarray)
           (idx : nat) (mem : heap) : result (batch * heap) :=
  let chunk := fun value =>
    let n := nth 1 (shape value) 0 in
    getitem_cols value (chunk_start self n idx) (chunk_stop self n idx) in
  if need_copy then
    match arr with
    | Some arr => copy_loop chunk arr 0 mem (data self) []
    | None => Raise (UnboundLocalError "local variable 'arr' referenced before assignment")
    end
  else
    device_data <- view_loop chunk (data self) ;;
    Ok (device_data, mem).

(** [Minibatches.__call__(handler, verbose)], run to exhaustion.  When the
    buffer cannot be allocated the generator ends before it prints; when
    the count of chunks cannot be computed it ends there, before its loop
    and before it touches its random generator. *)
Definition __call__ `{RandomState} (self : t) (h : handler) (verbose_arg : bool) (mem : heap)
  : run * list nat * t :=
  let bar := show_progress (verbose self) verbose_arg in
  let need_copy := negb (resident h (data self)) in
  let buffer :=
    if need_copy then
      ma <- allocate_int64 h mem (sample_size self) ;; Ok (fst ma, Some (snd ma))
    else Ok (mem, None) in
  match buffer with
  | Raise e =>
      ({| with_bar := bar; started := false; allocated := []; yielded := []; sent := [];
          raised := Some e |}, [], self)
  | Ok (mem1, arr) =>
      let allocs := match arr with Some a => [a] | None => [] end in
      match ceil_div (nr_sequences self) (batch_size self) with
      | Raise e =>
          ({| with_bar := bar; started := true; allocated := allocs; yielded := [];
              sent := []; raised := Some e |}, [], self)
      | Ok nr_chunks =>
          let indices := arange nr_chunks in
          let '(rnd', indices) :=
            if shuffle self then rnd_shuffle (rnd self) indices else (rnd self, indices) in
          let '(ys, ps, r) :=
            for_each (body self need_copy arr) (fun i => (i + 1) * batch_size self)
                     0 indices mem1 in
          ({| with_bar := bar; started := true; allocated := allocs; yielded := ys;
              sent := ps; raised := r |},
           indices,
           {| rnd := rnd'; nr_sequences := nr_sequences self; data := data self;
              shuffle := shuffle self; verbose := verbose self;
              batch_size := batch_size self; sample_size := sample_size self |})
      end
  end.

End Minibatches.

(** [shape[1]] of an array. *)
Definition axis1 (a : ndarray) : nat := nth 1 (shape a) 0.


(** ** Vocabulary of the statements *)

Definition lacks_shape (v : pyobj) : Prop := hasattr_shape v = false.

(** Two entries are arrays whose axis-1 extents exist and differ. *)
Definition extents_differ (named : named_data) : Prop :=
  exists k1 a1 n1 k2 a2 n2,
    In (k1, PArray a1) named /\ In (k2, PArray a2) named /\
    nth_error (shape a1) 1 = Some n1 /\ nth_error (shape a2) 1 = Some n2 /\
    n1 <> n2.

(** The sequence counts recorded for a dataset of arrays. *)
Definition counts_of (d : batch) : list (string * nat) :=
  map (fun kv => (fst kv, axis1 (snd kv))) d.

(** An entry that passes the two checks of the loop. *)
Definition well_shaped (kv : string * pyobj) : Prop :=
  exists a, snd kv = PArray a /\ 3 <= ndim a.

(** The view [a[:, lo:hi]] of an array of rank 2 or more. *)
Definition col_view (a : ndarray) (lo hi : nat) : ndarray :=
  {| cls := cls a; base := base a;
     offset := offset a + Nat.min lo (axis1 a) * nth 1 (strides a) 0;
     shape := nth 0 (shape a) 0
              :: (Nat.min hi (axis1 a) - Nat.min lo (axis1 a))
              :: skipn 2 (shape a);
     strides := strides a |}.

Definition col_views (d : batch) (lo hi : nat) : batch :=
  map (fun kv => (fst kv, col_view (snd kv) lo hi)) d.

(** The slot of the flat buffer [arr] that starts at [j], seen under the
    shape [shp]. *)
Definition slot (arr : ndarray) (j : nat) (shp : list nat) : ndarray :=
  {| cls := cls arr; base := base arr;
     offset := offset arr + j * nth 0 (strides arr) 0;
     shape := shp; strides := c_strides shp |}.

(** The batch and the heap that staging a list of slices leaves behind. *)
Fixpoint slots (arr : ndarray) (j : nat) (slices : batch) : batch :=
  match slices with
  | [] => []
  | (k, s) :: rest => (k, slot arr j (shape s)) :: slots arr (j + size s) rest
  end.

Fixpoint staged_mem (arr : ndarray) (j : nat) (mem : heap) (slices : batch) : heap :=
  match slices with
  | [] => mem
  | (k, s) :: rest =>
      staged_mem arr (j + size s) (set_from_numpy mem (slot arr j (shape s)) s) rest
  end.

(** The yields of a loop whose body is the total function [F]. *)
Fixpoint yields_of (F : nat -> heap -> batch * heap) (indices : list nat) (mem : heap)
  : list (batch * heap) :=
  match indices with
  | [] => []
  | idx :: rest => let y := F idx mem in y :: yields_of F rest (snd y)
  end.

(** The axis-1 extent of a batch: that of its first array. *)
Definition batch_axis1 (b : batch) : nat :=
  match b with
  | (_, a) :: _ => axis1 a
  | [] => 0
  end.

(** Every array of a non-empty batch has the axis-1 extent [e]. *)
Definition uniform_axis1 (e : nat) (b : batch) : Prop :=
  b <> [] /\ Forall (fun kv => axis1 (snd kv) = e) b.

(** Two batches carry the same names with the same shapes. *)
Definition same_shapes (b1 b2 : batch) : Prop :=
  map (fun kv => (fst kv, shape (snd kv))) b1 =
  map (fun kv => (fst kv, shape (snd kv))) b2.

(** The dataset of arrays behind a validated keyword dictionary. *)
Definition as_named (d : batch) : named_data :=
  map (fun kv => (fst kv, PArray (snd kv))) d.

(** A yielded batch against the keyword dictionary: the same names, in the
    same order, and under each name an array of the shape of the original. *)
Definition shapes_match (b : batch) (named : named_data) : Prop :=
  Forall2 (fun kv nv => fst kv = fst nv /\
                        exists a, snd nv = PArray a /\ shape (snd kv) = shape a)
          b named.

(** The batch for the columns [lo..hi) and the heap it is yielded with:
    staged through [arr] if there is one, views of the data otherwise. *)
Definition staged_or_view (d : batch) (arr : option ndarray) (lo hi : nat) (mem : heap)
  : batch * heap :=
  match arr with
  | Some a => (slots a 0 (col_views d lo hi), staged_mem a 0 mem (col_views d lo hi))
  | None => (col_views d lo hi, mem)
  end.

(** The extent of the chunk [idx] of [n] sequences cut into chunks of [b]. *)
Definition chunk_len (n b idx : nat) : nat :=
  Nat.min ((idx + 1) * b) n - Nat.min (idx * b) n.

(** What construction establishes about the arrays an iterator keeps. *)
Definition dataset_ok (d : batch) (n : nat) : Prop :=
  d <> [] /\ Forall (fun kv => 3 <= ndim (snd kv) /\ axis1 (snd kv) = n) d.

(** A count up to 2^53: binary64 holds it and every smaller count exactly. *)
Definition exact_count (n : nat) : Prop := (Z.of_nat n <= 2 ^ 53)%Z.

(** The elements of one sequence, all arrays taken together. *)
Definition sequence_size (d : batch) : nat :=
  sum (map (fun kv => column_size (snd kv)) d).

(** A call with the handler [h] can have the buffer it needs: it needs none,
    or the count of elements of [batch_size] sequences is below 2^63. *)
Definition can_stage `{RandomState} (self : Minibatches.t) (h : handler) : Prop :=
  resident h (Minibatches.data self) = true \/
  (Z.of_nat (sequence_size (Minibatches.data self))
   * Z.of_nat (Minibatches.batch_size self) < 2 ^ 63)%Z.






(** [arr] is the whole of buffer [b], which holds [len] elements. *)
Definition flat_buffer (arr : ndarray) (b len : nat) : Prop :=
  base arr = b /\ offset arr = 0 /\ shape arr = [len] /\ strides arr = [1].






(** ** The progress reporter *)

(** [s[i:]], [s[:n]] and [s[i:j]] for indices that are not negative. *)
Fixpoint drop (n : nat) (s : string) : string :=
  match n, s with
  | 0, _ => s
  | S n', String _ s' => drop n' s'
  | S _, EmptyString => EmptyString
  end.

Fixpoint take (n : nat) (s : string) : string :=
  match n, s with
  | 0, _ => EmptyString
  | S n', String c s' => String c (take n' s')
  | S _, EmptyString => EmptyString
  end.

Definition py_slice (s : string) (i j : nat) : string := take (j - i) (drop i s).

(** [s[:-n]] *)
Definition drop_last (n : nat) (s : string) : string :=
  take (String.length s - n) s.

Module Timedelta.

(** A [datetime.timedelta], normalised as Python keeps it: any number of
    days, seconds below 86400 and microseconds below 10^6. *)
Record t : Type := {
  days : Z;
  seconds : Z;
  microseconds : Z
}.

(** The difference of two readings of [datetime.utcnow()], each given in
    microseconds. *)
Definition between (start_time now : Z) : t :=
  let us := (now - start_time)%Z in
  {| days := (us / 86400000000)%Z;
     seconds := ((us mod 86400000000) / 1000000)%Z;
     microseconds := (us mod 1000000)%Z |}.

Definition digit (z : Z) : ascii := ascii_of_nat (48 + Z.to_nat (z mod 10)).

(** [%0wd] of a number that is not negative and has at most [w] digits. *)
Fixpoint fixed_digits (w : nat) (z : Z) : string :=
  match w with
  | 0 => EmptyString
  | S w' => String (digit (z / 10 ^ Z.of_nat w')) (fixed_digits w' z)
  end.

(** [%d] *)
Definition str_of_Z (z : Z) : string :=
  if (z <? 0)%Z then "-" +++ PyStr.str_of_nat (Z.to_nat (- z))
  else PyStr.str_of_nat (Z.to_nat z).

(** The hours, minutes and seconds: [%d:%02d:%02d]. *)
Definition hours (d : t) : Z := (seconds d / 60 / 60)%Z.

Definition minutes_seconds (d : t) : string :=
  fixed_digits 2 ((seconds d / 60) mod 60) +++ ":" +++
  fixed_digits 2 (seconds d mod 60).

(** The days, when there are any: [%d day%s, ]. *)
Definition days_str (d : t) : string :=
  if (days d =? 0)%Z then EmptyString
  else str_of_Z (days d) +++ " day" +++
       (if (Z.abs (days d) =? 1)%Z then EmptyString else "s") +++ ", ".

(** [str(d)] *)
Definition str (d : t) : string :=
  let s := days_str d +++ str_of_Z (hours d) +++ ":" +++ minutes_seconds d in
  if (microseconds d =? 0)%Z then s
  else s +++ "." +++ fixed_digits 6 (microseconds d).

End Timedelta.

(** The default arguments of [progress_bar]. *)
Definition default_prefix : string := "[".

Definition default_bar : string :=
  "====1====2====3====4====5====6====7====8====9====0".

Definition newline : string := String (ascii_of_nat 10) EmptyString.

(** [suffix.format(elapsed_str)] for the default [suffix]. *)
Definition default_suffix (elapsed_str : string) : string :=
  "] Took: " +++ elapsed_str +++ newline.

(** [str(datetime.utcnow() - start_time)[: -5]] *)
Definition elapsed_str (start_time now : Z) : string :=
  drop_last 5 (Timedelta.str (Timedelta.between start_time now)).

(** A count as a float (exact below 2^53). *)
Definition float_of_nat (n : nat) : PrimFloat.float :=
  PrimFloat.of_uint63 (Uint63.of_Z (Z.of_nat n)).

(** [math.trunc] of a float that is not negative; [None] for an infinity, a
    NaN or a negative number, none of which a quotient of counts gives. *)
Definition trunc (f : PrimFloat.float) : option nat :=
  match FloatOps.Prim2SF f with
  | SpecFloat.S754_zero _ => Some 0
  | SpecFloat.S754_finite false m e =>
      Some (Z.to_nat (if (0 <=? e)%Z then (Z.pos m * 2 ^ e)%Z
                      else (Z.pos m / 2 ^ (- e))%Z))
  | _ => None
  end.

(** [math.trunc(progress / maximum * len(bar))] for counts, [maximum] not
    being 0: the division and the product are those of binary64. *)
Definition level (progress maximum len : nat) : option nat :=
  trunc (PrimFloat.mul (PrimFloat.div (float_of_nat progress) (float_of_nat maximum))
                       (float_of_nat len)).

Module ProgressBar.

(** Where the generator [progress_bar(maximum, prefix, bar)] stands: not yet
    started; suspended at [progress = yield out] in its loop, with its
    [start_time] and [i]; suspended at its last [yield]; or over. *)
Inductive state : Type :=
| Fresh
| InLoop (start_time : Z) (i : nat)
| AtEnd
| Over.

Inductive failure : Type :=
| StopIteration
| ZeroDivisionError
| TypeError
| NotFinite.

Inductive outcome : Type :=
| Yielded (out : string)
| Raised (e : failure).

(** From the loop test on, with [i] and [out] as they stand: either the
    loop yields [out], or the clock is read and the last text is yielded. *)
Definition resume (bar : string) (start_time now : Z) (i : nat) (out : string)
  : state * outcome :=
  if i <? String.length bar then (InLoop start_time i, Yielded out)
  else (AtEnd, Yielded (out +++ default_suffix (elapsed_str start_time now))).

(** [next(g)]: on a fresh generator the clock is read for [start_time]
    ([now] is a later reading, used if the loop is not entered); on a
    suspended one [None] is sent. *)
Definition next (prefix bar : string) (start_time now : Z) (s : state)
  : state * outcome :=
  match s with
  | Fresh => resume bar start_time now 0 prefix
  | InLoop _ _ => (Over, Raised TypeError)
  | AtEnd | Over => (Over, Raised StopIteration)
  end.

(** [g.send(progress)]; [now] is the reading of the clock, should this step
    reach the end of the loop. *)
Definition send (maximum : nat) (bar : string) (now : Z) (s : state) (progress : nat)
  : state * outcome :=
  match s with
  | Fresh => (Fresh, Raised TypeError)
  | InLoop start_time i =>
      if maximum =? 0 then (Over, Raised ZeroDivisionError)
      else
        match level progress maximum (String.length bar) with
        | None => (Over, Raised NotFinite)
        | Some j => resume bar start_time now j (py_slice bar i j)
        end
  | AtEnd | Over => (Over, Raised StopIteration)
  end.

(** Sending one value after the other, until one raises: the texts yielded,
    the state reached and what was raised, if anything. *)
Fixpoint feed (maximum : nat) (bar : string) (now : Z) (s : state) (values : list nat)
  : list string * state * option failure :=
  match values with
  | [] => ([], s, None)
  | progress :: rest =>
      match send maximum bar now s progress with
      | (s', Yielded out) =>
          let '(outs, s'', e) := feed maximum bar now s' rest in
          (out :: outs, s'', e)
      | (s', Raised e) => ([], s', Some e)
      end
  end.

End ProgressBar.



Definition concat_str (l : list string) : string :=
  fold_right String.append EmptyString l.



(** ** Example data *)

(** A contiguous array of class [c] that fills buffer [b]. *)
Definition example_array (c b : nat) (shp : list nat) : ndarray :=
  {| cls := c; base := b; offset := 0; shape := shp; strides := c_strides shp |}.

(** Two arrays of shapes (5,3,2) and (5,4,2): the sequence counts differ. *)
Definition mismatched : named_data :=
  [("inputs", PArray (example_array 0 0 [5; 3; 2]));
   ("targets", PArray (example_array 0 1 [5; 4; 2]))].

(** One array of rank 2. *)
Definition flat_targets : named_data :=
  [("targets", PArray (example_array 0 0 [5; 7]))].

(** A valid dataset of 5 sequences, its two host arrays filling the two
    buffers of [two_buffers]. *)
Definition two_arrays : named_data :=
  [("inputs", PArray (example_array 0 0 [2; 5; 3]));
   ("targets", PArray (example_array 0 1 [1; 5; 2]))].

(** A valid dataset of 2^53 + 1 sequences of one element each. *)
Definition long_dataset : named_data :=
  [("inputs", PArray (example_array 0 0 [1; Z.to_nat (2 ^ 53 + 1); 1]))].

Definition two_buffers : heap :=
  [map Z.of_nat (seq 100 30); map Z.of_nat (seq 200 10)].

(** A handler whose arrays are the host arrays above, and one whose arrays
    are of another class. *)
Definition host : handler := {| array_type := 0 |}.
Definition device : handler := {| array_type := 1 |}.

(** * Properties *)

(** ** Strings *)

Lemma append_assoc_s (a b c : string) : (a +++ b) +++ c = a +++ b +++ c.
Proof.
  induction a as [|x a IH]; simpl; [reflexivity | now rewrite IH].
Qed.

Lemma append_empty_r (a : string) : a +++ EmptyString = a.
Proof.
  induction a as [|x a IH]; simpl; [reflexivity | now rewrite IH].
Qed.

Lemma substring_refl (s : string) : PyStr.is_substring s s.
Proof.
  exists EmptyString, EmptyString. simpl. now rewrite append_empty_r.
Qed.

Lemma substring_prefix (s t : string) : PyStr.is_substring s (s +++ t).
Proof.
  exists EmptyString, t. reflexivity.
Qed.

Lemma substring_app_l (s p t : string) :
  PyStr.is_substring s t -> PyStr.is_substring s (p +++ t).
Proof.
  intros (pre & post & ->). exists (p +++ pre), post.
  now rewrite append_assoc_s.
Qed.

Lemma substring_app_r (s t q : string) :
  PyStr.is_substring s t -> PyStr.is_substring s (t +++ q).
Proof.
  intros (pre & post & ->). exists pre, (post +++ q).
  now rewrite !append_assoc_s.
Qed.

Lemma substring_trans (s t u : string) :
  PyStr.is_substring s t -> PyStr.is_substring t u -> PyStr.is_substring s u.
Proof.
  intros Hst (pre & post & ->).
  apply substring_app_l, substring_app_r, Hst.
Qed.

Lemma starts_with_app (s t : string) : PyStr.starts_with s (s +++ t) = true.
Proof.
  induction s as [|c s IH]; simpl; [reflexivity|].
  now rewrite Ascii.eqb_refl, IH.
Qed.

Lemma contains_starts_with (s t : string) :
  PyStr.starts_with s t = true -> PyStr.contains s t = true.
Proof.
  intros Hs. destruct t; simpl; rewrite Hs; reflexivity.
Qed.

Lemma contains_complete (s t : string) :
  PyStr.is_substring s t -> PyStr.contains s t = true.
Proof.
  intros (pre & post & ->). induction pre as [|c pre IH].
  - change (EmptyString +++ s +++ post) with (s +++ post).
    apply contains_starts_with, starts_with_app.
  - simpl. rewrite IH. apply orb_true_r.
Qed.

Lemma not_contains_not_substring (s t : string) :
  PyStr.contains s t = false -> ~ PyStr.is_substring s t.
Proof.
  intros Hc Hs. apply contains_complete in Hs. congruence.
Qed.

Lemma substring_join (sep x : string) (l : list string) :
  In x l -> PyStr.is_substring x (PyStr.join sep l).
Proof.
  induction l as [|y l IH]; intros Hin; [contradiction|].
  destruct Hin as [-> | Hin].
  - destruct l; simpl; [apply substring_refl | apply substring_prefix].
  - destruct l as [|z l]; [contradiction|].
    change (PyStr.join sep (y :: z :: l)) with (y +++ sep +++ PyStr.join sep (z :: l)).
    apply substring_app_l, substring_app_l, IH, Hin.
Qed.

Lemma substring_repr_dict (d : list (string * nat)) (kv : string * nat) :
  In kv d -> PyStr.is_substring (PyStr.repr_item kv) (PyStr.repr_dict d).
Proof.
  intros Hin. unfold PyStr.repr_dict.
  apply substring_app_l, substring_app_r, substring_join, in_map, Hin.
Qed.

Lemma substring_count_repr_item (kv : string * nat) :
  PyStr.is_substring (PyStr.str_of_nat (snd kv)) (PyStr.repr_item kv).
Proof.
  unfold PyStr.repr_item. apply substring_app_l, substring_app_l, substring_refl.
Qed.

(** [repr] of some names: the quotes, and the characters written as
    escapes. *)
Lemma repr_str_examples :
  PyStr.repr_str "inputs" = "'inputs'" /\
  PyStr.repr_str "it's" = String PyStr.dquote ("it's" +++ String PyStr.dquote EmptyString) /\
  PyStr.repr_str (String (ascii_of_nat 160) "b") = "'\xa0b'" /\
  PyStr.repr_str (String (ascii_of_nat 173) (String (ascii_of_nat 10) EmptyString))
  = "'\xad\n'" /\
  PyStr.repr_str (String (ascii_of_nat 233) EmptyString)
  = String PyStr.squote (String (ascii_of_nat 233) (String PyStr.squote EmptyString)).
Proof.
  repeat split.
Qed.

(** ** The shape validator *)

Lemma fold_min_spec (l : list nat) (x : nat) :
  (fold_left Nat.min l x = x \/ In (fold_left Nat.min l x) l) /\
  fold_left Nat.min l x <= x /\
  Forall (fun y => fold_left Nat.min l x <= y) l.
Proof.
  revert x. induction l as [|y l IH]; intros x; simpl.
  - repeat split; auto.
  - destruct (IH (Nat.min x y)) as (Hin & Hle & Hall). repeat split.
    + destruct Hin as [Heq | Hin]; [|now right; right].
      rewrite Heq. destruct (Nat.min_spec x y) as [[_ ->] | [_ ->]]; auto.
    + lia.
    + constructor; [lia | exact Hall].
Qed.

Lemma fold_max_spec (l : list nat) (x : nat) :
  (fold_left Nat.max l x = x \/ In (fold_left Nat.max l x) l) /\
  x <= fold_left Nat.max l x /\
  Forall (fun y => y <= fold_left Nat.max l x) l.
Proof.
  revert x. induction l as [|y l IH]; intros x; simpl.
  - repeat split; auto.
  - destruct (IH (Nat.max x y)) as (Hin & Hle & Hall). repeat split.
    + destruct Hin as [Heq | Hin]; [|now right; right].
      rewrite Heq. destruct (Nat.max_spec x y) as [[_ ->] | [_ ->]]; auto.
    + lia.
    + constructor; [lia | exact Hall].
Qed.

Lemma py_min_spec (l : list nat) (lo : nat) :
  py_min l = Some lo -> In lo l /\ Forall (fun y => lo <= y) l.
Proof.
  destruct l as [|x l]; simpl; [discriminate|]. intros [= <-].
  destruct (fold_min_spec l x) as (Hin & Hle & Hall). split.
  - destruct Hin as [-> | Hin]; auto.
  - constructor; assumption.
Qed.

Lemma py_max_spec (l : list nat) (hi : nat) :
  py_max l = Some hi -> In hi l /\ Forall (fun y => y <= hi) l.
Proof.
  destruct l as [|x l]; simpl; [discriminate|]. intros [= <-].
  destruct (fold_max_spec l x) as (Hin & Hle & Hall). split.
  - destruct Hin as [-> | Hin]; auto.
  - constructor; assumption.
Qed.

Lemma collect_ok (items : named_data) (acc nr : list (string * nat)) :
  collect_nr_sequences items acc = Ok nr ->
  nr = acc ++ counts_of (arrays_of items) /\ Forall well_shaped items.
Proof.
  revert acc. induction items as [|[name v] items IH]; intros acc; simpl.
  - intros [= <-]. now rewrite app_nil_r.
  - destruct v as [a | l | | d]; try discriminate.
    destruct (ndim a <? 3) eqn:Hr; [discriminate|].
    apply Nat.ltb_ge in Hr. intros Hc. apply IH in Hc as [-> Hall]. split.
    + now rewrite <- app_assoc.
    + constructor; [exists a; auto | exact Hall].
Qed.

Lemma collect_total (items : named_data) (acc : list (string * nat)) :
  Forall well_shaped items ->
  collect_nr_sequences items acc = Ok (acc ++ counts_of (arrays_of items)).
Proof.
  intros Hall. revert acc. induction Hall as [|[name v] items (a & Ha & Hr) _ IH];
    intros acc; simpl.
  - now rewrite app_nil_r.
  - simpl in Ha. subst v. apply Nat.ltb_ge in Hr. rewrite Hr, IH.
    now rewrite <- app_assoc.
Qed.

Lemma collect_raise (items : named_data) (acc : list (string * nat)) (e : exn) :
  collect_nr_sequences items acc = Raise e ->
  (exists name v, In (name, v) items /\ lacks_shape v /\
                  e = IteratorValidationError (no_shape_msg name)) \/
  (exists name a, In (name, PArray a) items /\ ndim a < 3 /\
                  e = IteratorValidationError rank_msg).
Proof.
  revert acc. induction items as [|[name v] items IH]; intros acc; simpl;
    [discriminate|].
  destruct v as [a | l | | d].
  - destruct (ndim a <? 3) eqn:Hr.
    + intros [= <-]. apply Nat.ltb_lt in Hr. right. exists name, a. auto.
    + intros Hc. apply IH in Hc as [(n & v & Hin & H) | (n & b & Hin & H)].
      * left. exists n, v. auto.
      * right. exists n, b. auto.
  - intros [= <-]. left. exists name, (PList l). repeat split; auto.
  - intros [= <-]. left. exists name, PNone. repeat split; auto.
  - intros [= <-]. left. exists name, (PDict d). repeat split; auto.
Qed.

Lemma well_shaped_or_not (items : named_data) :
  Forall well_shaped items \/
  (exists k v, In (k, v) items /\ lacks_shape v) \/
  (exists k a, In (k, PArray a) items /\ ndim a < 3).
Proof.
  induction items as [|[name v] items IH]; [left; constructor|].
  destruct v as [a | l | | d].
  - destruct (Nat.lt_ge_cases (ndim a) 3) as [Hlt | Hge].
    + right. right. exists name, a. simpl. auto.
    + destruct IH as [Hall | [(k & v & Hin & H) | (k & b & Hin & H)]].
      * left. constructor; [exists a; auto | exact Hall].
      * right. left. exists k, v. simpl. auto.
      * right. right. exists k, b. simpl. auto.
  - right. left. exists name, (PList l). simpl. split; [auto | reflexivity].
  - right. left. exists name, PNone. simpl. split; [auto | reflexivity].
  - right. left. exists name, (PDict d). simpl. split; [auto | reflexivity].
Qed.

Lemma well_shaped_in (items : named_data) (k : string) (v : pyobj) :
  Forall well_shaped items -> In (k, v) items ->
  exists a, v = PArray a /\ 3 <= ndim a.
Proof.
  intros Hall Hin. rewrite Forall_forall in Hall. exact (Hall _ Hin).
Qed.

Lemma arrays_of_in (items : named_data) (k : string) (a : ndarray) :
  In (k, a) (arrays_of items) <-> In (k, PArray a) items.
Proof.
  induction items as [|[name v] items IH]; simpl; [tauto|].
  destruct v as [b | l | | d]; simpl; rewrite IH; intuition (try congruence).
Qed.

Lemma arrays_of_well_shaped (items : named_data) :
  Forall well_shaped items ->
  map (fun kv => (fst kv, PArray (snd kv))) (arrays_of items) = items.
Proof.
  induction 1 as [|[name v] items (a & Ha & _) _ IH]; simpl; [reflexivity|].
  simpl in Ha. subst v. simpl. now rewrite IH.
Qed.

Lemma axis1_nth_error (a : ndarray) :
  3 <= ndim a -> nth_error (shape a) 1 = Some (axis1 a).
Proof.
  unfold ndim, axis1. destruct (shape a) as [|t [|n rest]]; simpl; intros; try lia.
  reflexivity.
Qed.

Lemma nth_error_axis1 (a : ndarray) (n : nat) :
  nth_error (shape a) 1 = Some n -> axis1 a = n.
Proof.
  unfold axis1. destruct (shape a) as [|t [|m rest]]; simpl; congruence.
Qed.

Lemma counts_of_snd (d : batch) :
  map snd (counts_of d) = map (fun kv => axis1 (snd kv)) d.
Proof.
  unfold counts_of. rewrite map_map. reflexivity.
Qed.

(** What the validator does, outcome by outcome. *)
Lemma validator_cases (named : named_data) :
  match _assert_correct_data_format named with
  | Ok n =>
      named <> [] /\ Forall well_shaped named /\
      Forall (fun kv => axis1 (snd kv) = n) (arrays_of named)
  | Raise (IteratorValidationError msg) =>
      (exists name v, In (name, v) named /\ lacks_shape v /\ msg = no_shape_msg name) \/
      (exists name a, In (name, PArray a) named /\ ndim a < 3 /\ msg = rank_msg) \/
      (Forall well_shaped named /\ msg = mismatch_msg (counts_of (arrays_of named)) /\
       exists k1 a1 k2 a2, In (k1, a1) (arrays_of named) /\
                           In (k2, a2) (arrays_of named) /\ axis1 a1 <> axis1 a2)
  | Raise (ValueError msg) => named = [] /\ msg = empty_min_msg
  | Raise _ => False
  end.
Proof.
  unfold _assert_correct_data_format.
  destruct (collect_nr_sequences named []) as [nr | e] eqn:Hc; simpl.
  - apply collect_ok in Hc as [-> Hall]. simpl.
    rewrite counts_of_snd.
    destruct (py_min _) as [lo|] eqn:Hlo.
    + destruct (py_max _) as [hi|] eqn:Hhi.
      * apply py_min_spec in Hlo as [Hlo_in Hlo_all].
        apply py_max_spec in Hhi as [Hhi_in Hhi_all].
        destruct (lo =? hi) eqn:Heq; simpl.
        -- apply Nat.eqb_eq in Heq. subst hi. repeat split; auto.
           ++ intros ->. simpl in Hlo_in. exact Hlo_in.
           ++ rewrite Forall_map in Hlo_all, Hhi_all.
              rewrite Forall_forall in *. intros kv Hin.
              specialize (Hlo_all _ Hin). specialize (Hhi_all _ Hin). lia.
        -- apply Nat.eqb_neq in Heq. right. right. repeat split; auto.
           apply in_map_iff in Hlo_in as ([k1 a1] & E1 & H1).
           apply in_map_iff in Hhi_in as ([k2 a2] & E2 & H2).
           exists k1, a1, k2, a2. simpl in *. repeat split; auto. congruence.
      * destruct (map _ (arrays_of named)); discriminate.
    + destruct (arrays_of named) eqn:Ha; [|discriminate]. simpl. split; auto.
      destruct named as [|[k v] named]; [reflexivity|]. exfalso.
      inversion Hall as [|? ? (a & Hv & _) _]; subst. simpl in Hv. subst v.
      discriminate.
  - apply collect_raise in Hc as [(n & v & Hin & Hl & ->) | (n & a & Hin & Hr & ->)].
    + left. exists n, v. auto.
    + right. left. exists n, a. auto.
Qed.

(** C1.  The validator raises a validation error exactly when some value has
    no shape attribute, or some array has fewer than 3 axes, or two arrays
    differ in their axis-1 extent; and when it returns, what it returns is
    the axis-1 extent of every entry. *)
Theorem validator_contract (named : named_data) :
  (is_validation_error (_assert_correct_data_format named) <->
     (exists k v, In (k, v) named /\ lacks_shape v) \/
     (exists k a, In (k, PArray a) named /\ ndim a < 3) \/
     extents_differ named) /\
  (forall n, _assert_correct_data_format named = Ok n ->
     forall k v, In (k, v) named ->
       exists a, v = PArray a /\ 3 <= ndim a /\ nth_error (shape a) 1 = Some n).
Proof.
  pose proof (validator_cases named) as H.
  destruct (_assert_correct_data_format named) as [n | e] eqn:E.
  - destruct H as (Hne & Hall & Hext). split.
    + split; [intros (msg & Hmsg); discriminate|].
      intros [(k & v & Hin & Hl) | [(k & a & Hin & Hr) | Hd]]; exfalso.
      * destruct (well_shaped_in _ _ _ Hall Hin) as (a & -> & _). discriminate.
      * destruct (well_shaped_in _ _ _ Hall Hin) as (b & [= <-] & Hb). lia.
      * destruct Hd as (k1 & a1 & n1 & k2 & a2 & n2 & H1 & H2 & E1 & E2 & Hne12).
        rewrite Forall_forall in Hext.
        apply arrays_of_in in H1, H2.
        apply Hext in H1, H2. simpl in H1, H2.
        apply nth_error_axis1 in E1, E2. congruence.
    + intros m [= <-] k v Hin.
      destruct (well_shaped_in _ _ _ Hall Hin) as (a & -> & Ha).
      exists a. repeat split; auto.
      rewrite Forall_forall in Hext. apply arrays_of_in in Hin.
      apply Hext in Hin. simpl in Hin. rewrite <- Hin. now apply axis1_nth_error.
  - split; [|discriminate]. destruct e as [msg | msg | msg | msg | msg | msg];
      try contradiction.
    + split; [|intros _; now exists msg].
      intros _. destruct H as [(k & v & Hin & Hl & _) | [(k & a & Hin & Hr & _) | H]].
      * left. now exists k, v.
      * right. left. now exists k, a.
      * right. right. destruct H as (Hall & _ & k1 & a1 & k2 & a2 & H1 & H2 & Hne).
        apply arrays_of_in in H1, H2.
        destruct (well_shaped_in _ _ _ Hall H1) as (b1 & [= <-] & Hb1).
        destruct (well_shaped_in _ _ _ Hall H2) as (b2 & [= <-] & Hb2).
        exists k1, a1, (axis1 a1), k2, a2, (axis1 a2).
        repeat split; auto using axis1_nth_error.
    + destruct H as [-> _]. split; [intros (m & Hm); discriminate|].
      intros [(k & v & [] & _) | [(k & a & [] & _) | Hd]].
      destruct Hd as (k1 & a1 & n1 & k2 & a2 & n2 & [] & _).
Qed.

(** C8, counterexample.  For the one array [targets] of shape (5, 7) the
    validation error carries the fixed rank message, in which neither the
    name [targets] nor the extents 5 and 7 occur. *)
Lemma rank_error_names_nothing :
  exists msg,
    _assert_correct_data_format flat_targets = Raise (IteratorValidationError msg) /\
    (forall k v, In (k, v) flat_targets -> ~ PyStr.is_substring k msg) /\
    (forall k a n, In (k, PArray a) flat_targets -> In n (shape a) ->
                   ~ PyStr.is_substring (PyStr.str_of_nat n) msg).
Proof.
  exists rank_msg. split; [reflexivity|]. split.
  - intros k v [[= <- <-] | []]. apply not_contains_not_substring.
    vm_compute. reflexivity.
  - intros k a n [[= <- <-] | []] [<- | [<- | []]];
      apply not_contains_not_substring; vm_compute; reflexivity.
Qed.

(** C8, amended.  A validation error for a value without a shape starts with
    the name of that entry; the one for mismatching sequence counts shows
    every name, as [repr] writes it, with its count; the one for an array
    of rank below 3 is one fixed text, [rank_msg], whatever the entry: it
    tells neither which entry it was nor what shape it had. *)
Theorem validation_messages (named : named_data) (msg : string) :
  _assert_correct_data_format named = Raise (IteratorValidationError msg) ->
  (exists name v, In (name, v) named /\ lacks_shape v /\
                  msg = no_shape_msg name /\ PyStr.is_substring name msg) \/
  (exists name a, In (name, PArray a) named /\ ndim a < 3 /\ msg = rank_msg) \/
  (extents_differ named /\
   msg = mismatch_msg (counts_of (arrays_of named)) /\
   forall k a, In (k, PArray a) named ->
     PyStr.is_substring (PyStr.repr_item (k, axis1 a)) msg /\
     PyStr.is_substring (PyStr.str_of_nat (axis1 a)) msg).
Proof.
  intros E. pose proof (validator_cases named) as H. rewrite E in H.
  destruct H as [(k & v & Hin & Hl & ->) | [(k & a & Hin & Hr & ->) | H]].
  - left. exists k, v. repeat split; auto. apply substring_prefix.
  - right. left. now exists k, a.
  - right. right. destruct H as (Hall & -> & k1 & a1 & k2 & a2 & H1 & H2 & Hne).
    split; [|split; [reflexivity|]].
    + apply arrays_of_in in H1, H2.
      destruct (well_shaped_in _ _ _ Hall H1) as (b1 & [= <-] & Hb1).
      destruct (well_shaped_in _ _ _ Hall H2) as (b2 & [= <-] & Hb2).
      exists k1, a1, (axis1 a1), k2, a2, (axis1 a2).
      repeat split; auto using axis1_nth_error.
    + intros k a Hin. apply arrays_of_in in Hin.
      assert (Hitem : PyStr.is_substring (PyStr.repr_item (k, axis1 a))
                        (mismatch_msg (counts_of (arrays_of named)))).
      { unfold mismatch_msg. apply substring_app_l, substring_repr_dict.
        unfold counts_of. apply in_map_iff. exists (k, a). auto. }
      split; [exact Hitem|].
      eapply substring_trans; [|exact Hitem].
      apply (substring_count_repr_item (k, axis1 a)).
Qed.

Lemma validation_messages_witness :
  exists msg,
    _assert_correct_data_format mismatched = Raise (IteratorValidationError msg) /\
    PyStr.is_substring "'inputs': 3" msg /\ PyStr.is_substring "'targets': 4" msg.
Proof.
  eexists. split; [reflexivity|].
  destruct (validation_messages mismatched _ eq_refl)
    as [(name & v & Hin & Hl & _) | [(name & a & Hin & Hr & _) | (_ & _ & H)]].
  - exfalso. simpl in Hin. destruct Hin as [[= <- <-] | [[= <- <-] | []]]; discriminate.
  - exfalso. simpl in Hin.
    destruct Hin as [[= <- <-] | [[= <- <-] | []]]; vm_compute in Hr; lia.
  - split.
    + apply (H "inputs" (example_array 0 0 [5; 3; 2])). simpl. auto.
    + apply (H "targets" (example_array 0 1 [5; 4; 2])). simpl. auto.
Defined.

(** C10.  With no arrays at all the loop of the validator has nothing to
    check and [min] of the empty collection of counts raises a [ValueError],
    which is what each of the three constructors then raises; none of them
    raises a validation error. *)
Theorem empty_dataset_value_error :
  collect_nr_sequences [] [] = Ok [] /\
  _assert_correct_data_format [] = Raise (ValueError empty_min_msg) /\
  Undivided.__init__ [] = Raise (ValueError empty_min_msg) /\
  (forall (R : RandomState) shuffle verbose seed entropy,
     Online.__init__ shuffle verbose seed entropy [] = Raise (ValueError empty_min_msg)) /\
  (forall (R : RandomState) batch_size shuffle verbose seed entropy,
     Minibatches.__init__ batch_size shuffle verbose seed entropy []
     = Raise (ValueError empty_min_msg)) /\
  ~ is_validation_error (_assert_correct_data_format []) /\
  ~ is_validation_error (Undivided.__init__ []) /\
  (forall (R : RandomState) shuffle verbose seed entropy,
     ~ is_validation_error (Online.__init__ shuffle verbose seed entropy [])) /\
  (forall (R : RandomState) batch_size shuffle verbose seed entropy,
     ~ is_validation_error
         (Minibatches.__init__ batch_size shuffle verbose seed entropy [])).
Proof.
  repeat split; try reflexivity; intros; intros (msg & Hmsg); discriminate.
Qed.

(** ** Slicing and staging *)

Lemma getitem_cols_ok (a : ndarray) (lo hi : nat) :
  2 <= ndim a -> getitem_cols a lo hi = Ok (col_view a lo hi).
Proof.
  unfold ndim, getitem_cols, col_view, axis1.
  destruct (shape a) as [|t [|n rest]]; simpl; intros; try lia. reflexivity.
Qed.

Lemma size_col_view (a : ndarray) (lo hi : nat) :
  size (col_view a lo hi) =
  column_size a * (Nat.min hi (axis1 a) - Nat.min lo (axis1 a)).
Proof.
  unfold size, column_size. simpl. lia.
Qed.

Lemma view_loop_cols (d : batch) (lo hi : nat) :
  Forall (fun kv => 2 <= ndim (snd kv)) d ->
  view_loop (fun v => getitem_cols v lo hi) d = Ok (col_views d lo hi).
Proof.
  induction 1 as [|[k a] d Ha _ IH]; simpl; [reflexivity|].
  simpl in Ha. rewrite (getitem_cols_ok _ _ _ Ha). simpl. rewrite IH. reflexivity.
Qed.

Lemma view_loop_id (d : batch) : view_loop (fun v => Ok v) d = Ok d.
Proof.
  induction d as [|[k a] d IH]; simpl; [reflexivity|]. rewrite IH. reflexivity.
Qed.

Lemma getitem_range_slot (arr : ndarray) (L j sz : nat) (shp : list nat) :
  shape arr = [L] -> j + sz <= L -> prod shp = sz ->
  (flat <- getitem_range arr j (j + sz) ;; reshape flat shp) = Ok (slot arr j shp).
Proof.
  intros Hs Hle Hp. unfold getitem_range. rewrite Hs. simpl.
  unfold reshape, size. simpl.
  replace (Nat.min (j + sz) L - Nat.min j L) with sz by lia.
  rewrite Hp, Nat.mul_1_r, Nat.eqb_refl. unfold slot.
  replace (Nat.min j L) with j by lia. reflexivity.
Qed.

(** The staging loop, when every slice can be taken and the slices fit into
    the buffer. *)
Lemma copy_loop_ok (slice : ndarray -> result ndarray) (arr : ndarray) (L : nat)
      (items slices : batch) :
  shape arr = [L] ->
  view_loop slice items = Ok slices ->
  forall j mem acc,
    j + sum (map (fun kv => size (snd kv)) slices) <= L ->
    copy_loop slice arr j mem items acc
    = Ok (acc ++ slots arr j slices, staged_mem arr j mem slices).
Proof.
  intros Hs. revert slices. induction items as [|[k v] items IH]; intros slices; simpl.
  - intros [= <-] j mem acc _. simpl. now rewrite app_nil_r.
  - destruct (slice v) as [s|e] eqn:Hv; simpl; [|discriminate].
    destruct (view_loop slice items) as [tail|e] eqn:Ht; simpl; [|discriminate].
    intros [= <-] j mem acc Hle. simpl in Hle.
    pose proof (getitem_range_slot arr L j (size s) (shape s) Hs) as Hslot.
    unfold bind in Hslot |- *.
    destruct (getitem_range arr j (j + size s)) as [flat|e].
    + rewrite Hslot by (try reflexivity; lia).
      rewrite (IH tail eq_refl) by lia.
      now rewrite <- app_assoc.
    + discriminate Hslot; try reflexivity; lia.
Qed.

Lemma for_each_total (body : nat -> heap -> result (batch * heap))
      (F : nat -> heap -> batch * heap) (progress : nat -> nat) (indices : list nat) :
  (forall idx mem, body idx mem = Ok (F idx mem)) ->
  forall i mem,
    for_each body progress i indices mem
    = (yields_of F indices mem, map progress (seq i (List.length indices)), None).
Proof.
  intros HF. induction indices as [|idx rest IH]; intros i mem; simpl; [reflexivity|].
  rewrite HF. destruct (F idx mem) as [b mem'] eqn:E. rewrite IH. reflexivity.
Qed.

Lemma length_yields_of F indices mem :
  List.length (yields_of F indices mem) = List.length indices.
Proof.
  revert mem. induction indices as [|idx rest IH]; intros mem; simpl; [reflexivity|].
  now rewrite IH.
Qed.

Lemma slots_names (arr : ndarray) (j : nat) (slices : batch) :
  map fst (slots arr j slices) = map fst slices.
Proof.
  revert j. induction slices as [|[k s] rest IH]; intros j; simpl; [reflexivity|].
  now rewrite IH.
Qed.

Lemma slots_same_shapes (arr : ndarray) (j : nat) (slices : batch) :
  same_shapes (slots arr j slices) slices.
Proof.
  unfold same_shapes. revert j.
  induction slices as [|[k s] rest IH]; intros j; simpl; [reflexivity|].
  now rewrite IH.
Qed.

Lemma slots_base (arr : ndarray) (j : nat) (slices : batch) :
  Forall (fun kv => base (snd kv) = base arr /\ cls (snd kv) = cls arr)
         (slots arr j slices).
Proof.
  revert j. induction slices as [|[k s] rest IH]; intros j; simpl; constructor; auto.
Qed.

Lemma same_shapes_axis1 (e : nat) (b1 b2 : batch) :
  same_shapes b1 b2 -> uniform_axis1 e b2 -> uniform_axis1 e b1.
Proof.
  unfold same_shapes, uniform_axis1. revert b2.
  induction b1 as [|[k1 a1] b1 IH]; intros [|[k2 a2] b2]; simpl; try discriminate.
  - intros _ [H _]. now contradict H.
  - intros [= _ Hs Hrest] [_ Hall]. inversion Hall as [|? ? Ha Hall']; subst.
    split; [discriminate|]. constructor.
    + unfold axis1 in *. simpl in *. now rewrite Hs.
    + destruct b2 as [|kv2 b2].
      * destruct b1; [constructor | discriminate].
      * apply (IH (kv2 :: b2)); [exact Hrest | split; [discriminate | exact Hall']].
Qed.

Lemma same_shapes_batch_axis1 (b1 b2 : batch) :
  same_shapes b1 b2 -> batch_axis1 b1 = batch_axis1 b2.
Proof.
  unfold same_shapes.
  destruct b1 as [|[k1 a1] b1]; destruct b2 as [|[k2 a2] b2]; simpl;
    try discriminate; auto.
  intros [= _ Hs _]. unfold axis1. now rewrite Hs.
Qed.

Lemma shapes_match_arrays_of (b : batch) (named : named_data) :
  Forall well_shaped named -> same_shapes b (arrays_of named) ->
  shapes_match b named.
Proof.
  unfold same_shapes, shapes_match. intros Hall. revert b.
  induction Hall as [|[k v] named (a & Ha & _) _ IH]; intros b; simpl.
  - destruct b; [constructor | discriminate].
  - simpl in Ha. subst v. destruct b as [|[k' a'] b]; simpl; [discriminate|].
    intros [= -> Hs Hrest]. constructor; [|now apply IH].
    simpl. split; [reflexivity|]. now exists a.
Qed.

(** ** [Undivided] *)

Lemma undivided_init (named : named_data) (self : Undivided.t) :
  Undivided.__init__ named = Ok self ->
  Forall well_shaped named /\ named <> [] /\
  Undivided.data self = arrays_of named /\
  Undivided.total_size self =
    sum (map (fun kv => size (snd kv)) (arrays_of named)).
Proof.
  unfold Undivided.__init__. pose proof (validator_cases named) as H.
  destruct (_assert_correct_data_format named) as [n|e]; simpl; [|discriminate].
  intros [= <-]. simpl. tauto.
Qed.

Lemma undivided_call (self : Undivided.t) (h : handler) (verbose : bool) (mem : heap) :
  Undivided.total_size self =
    sum (map (fun kv => size (snd kv)) (Undivided.data self)) ->
  let (mem1, arr) := allocate h mem (Undivided.total_size self) in
  Undivided.__call__ self h verbose mem =
  {| with_bar := false; started := false; allocated := [arr];
     yielded := [(slots arr 0 (Undivided.data self),
                  staged_mem arr 0 mem1 (Undivided.data self))];
     sent := []; raised := None |}.
Proof.
  intros Hsize. unfold Undivided.__call__, allocate. simpl.
  erewrite copy_loop_ok; [reflexivity | reflexivity | apply view_loop_id |].
  simpl. rewrite Hsize. lia.
Qed.

(** C3.  On a validated dataset the call yields exactly one batch and ends
    normally, whatever the handler; the batch has the names of the dataset,
    in order, each with an array of the shape of the original. *)
Theorem undivided_one_batch (named : named_data) (self : Undivided.t)
        (h : handler) (verbose : bool) (mem : heap) :
  Undivided.__init__ named = Ok self ->
  exists device_data mem',
    yielded (Undivided.__call__ self h verbose mem) = [(device_data, mem')] /\
    raised (Undivided.__call__ self h verbose mem) = None /\
    shapes_match device_data named.
Proof.
  intros Hinit. apply undivided_init in Hinit as (Hall & _ & Hdata & Hsize).
  rewrite <- Hdata in Hsize.
  pose proof (undivided_call self h verbose mem Hsize) as Hcall.
  unfold allocate in Hcall. rewrite Hcall. simpl.
  eexists. eexists. split; [reflexivity|]. split; [reflexivity|].
  apply shapes_match_arrays_of; [exact Hall|]. rewrite <- Hdata.
  apply slots_same_shapes.
Qed.

Lemma undivided_one_batch_witness :
  exists self device_data mem',
    Undivided.__init__ two_arrays = Ok self /\
    yielded (Undivided.__call__ self device false two_buffers) = [(device_data, mem')] /\
    raised (Undivided.__call__ self device false two_buffers) = None /\
    shapes_match device_data two_arrays.
Proof.
  eexists.
  destruct (undivided_one_batch two_arrays _ device false two_buffers eq_refl)
    as (device_data & mem' & Hy & Hr & Hs).
  exists device_data, mem'. repeat split; assumption.
Defined.

(** C2, what the code does.  [Undivided.__call__] tests the dictionary, not
    its arrays, against the marker type, so it always takes the copying
    branch: one buffer is allocated and every yielded array is a slot of it,
    also when every array is resident. *)
Theorem undivided_always_copies (named : named_data) (self : Undivided.t)
        (h : handler) (verbose : bool) (mem : heap) :
  Undivided.__init__ named = Ok self ->
  resident h (Undivided.data self) = true ->
  exists arr,
    allocated (Undivided.__call__ self h verbose mem) = [arr] /\
    shape arr = [Undivided.total_size self] /\
    base arr = List.length mem /\
    forall device_data mem',
      In (device_data, mem') (yielded (Undivided.__call__ self h verbose mem)) ->
      Forall (fun kv => base (snd kv) = List.length mem) device_data.
Proof.
  intros Hinit _. apply undivided_init in Hinit as (Hall & _ & Hdata & Hsize).
  rewrite <- Hdata in Hsize.
  pose proof (undivided_call self h verbose mem Hsize) as Hcall.
  unfold allocate in Hcall. rewrite Hcall. simpl.
  eexists. split; [reflexivity|]. split; [reflexivity|]. split; [reflexivity|].
  intros device_data mem' [[= <- <-] | []].
  eapply Forall_impl; [|apply slots_base]. simpl. intros kv [Hb _]. exact Hb.
Qed.

Lemma undivided_always_copies_witness :
  exists self arr device_data mem',
    Undivided.__init__ two_arrays = Ok self /\
    resident host (Undivided.data self) = true /\
    allocated (Undivided.__call__ self host false two_buffers) = [arr] /\
    yielded (Undivided.__call__ self host false two_buffers) = [(device_data, mem')] /\
    device_data <> Undivided.data self /\
    Forall (fun kv => base (snd kv) = 2) device_data.
Proof.
  eexists.
  destruct (undivided_always_copies two_arrays _ host false two_buffers
              eq_refl eq_refl) as (arr & Ha & _ & _ & Hy).
  exists arr. eexists. eexists.
  split; [reflexivity|]. split; [reflexivity|]. split; [exact Ha|].
  split; [reflexivity|]. split; [discriminate|].
  apply (Hy _ _ (or_introl eq_refl)).
Defined.

(** ** The loop bodies of [Online] and [Minibatches] *)

Lemma validated_dataset (named : named_data) (n : nat) :
  _assert_correct_data_format named = Ok n ->
  dataset_ok (arrays_of named) n /\ as_named (arrays_of named) = named.
Proof.
  intros E. pose proof (validator_cases named) as H. rewrite E in H.
  destruct H as (Hne & Hall & Hext). split; [split|].
  - destruct named as [|[k v] named]; [congruence|].
    inversion Hall as [|? ? (a & Ha & _) _]; subst. simpl in Ha. subst v. discriminate.
  - rewrite Forall_forall in *. intros [k a] Hin. split; [|now apply Hext].
    apply arrays_of_in in Hin. apply Hall in Hin as (b & [= <-] & Hb). exact Hb.
  - now apply arrays_of_well_shaped.
Qed.

Lemma dataset_ok_rank2 (d : batch) (n : nat) :
  dataset_ok d n -> Forall (fun kv => 2 <= ndim (snd kv)) d.
Proof.
  intros [_ H]. eapply Forall_impl; [|exact H]. simpl. intros kv [Hr _]. lia.
Qed.

Lemma sum_sizes_col_views (d : batch) (n lo hi : nat) :
  dataset_ok d n ->
  sum (map (fun kv => size (snd kv)) (col_views d lo hi)) =
  sum (map (fun kv => column_size (snd kv) * (Nat.min hi n - Nat.min lo n)) d).
Proof.
  intros [_ H]. unfold col_views. rewrite map_map. simpl.
  induction H as [|[k a] d [_ Ha] _ IH]; simpl; [reflexivity|].
  simpl in Ha. now rewrite size_col_view, Ha, IH.
Qed.

Lemma sum_map_scale (d : batch) (f : string * ndarray -> nat) (c : nat) :
  sum (map (fun kv => f kv * c) d) = sum (map f d) * c.
Proof.
  induction d as [|kv d IH]; simpl; [reflexivity|]. rewrite IH. lia.
Qed.

(** The body of either loop, for columns [lo..hi) that fit [room] columns
    of the buffer. *)
Lemma body_cols (d : batch) (n lo hi room : nat) (need_copy : bool)
      (arr : option ndarray) (mem : heap) :
  dataset_ok d n ->
  Nat.min hi n - Nat.min lo n <= room ->
  (need_copy = true ->
   exists a, arr = Some a /\
             shape a = [sum (map (fun kv => column_size (snd kv)) d) * room]) ->
  (need_copy = false -> arr = None) ->
  (if need_copy then
     match arr with
     | Some arr => copy_loop (fun v => getitem_cols v lo hi) arr 0 mem d []
     | None => Raise (UnboundLocalError
                        "local variable 'arr' referenced before assignment")
     end
   else
     device_data <- view_loop (fun v => getitem_cols v lo hi) d ;;
     Ok (device_data, mem))
  = Ok (staged_or_view d arr lo hi mem).
Proof.
  intros Hd Hroom Hcopy Hview.
  pose proof (view_loop_cols d lo hi (dataset_ok_rank2 _ _ Hd)) as Hv.
  destruct need_copy.
  - destruct (Hcopy eq_refl) as (a & -> & Ha). simpl.
    erewrite copy_loop_ok; [reflexivity | exact Ha | exact Hv |].
    rewrite (sum_sizes_col_views d n lo hi Hd), sum_map_scale. simpl. nia.
  - rewrite (Hview eq_refl), Hv. reflexivity.
Qed.

Lemma yields_of_Forall2 (F : nat -> heap -> batch * heap) (indices : list nat)
      (mem : heap) :
  Forall2 (fun idx y => exists m, y = F idx m) indices (yields_of F indices mem).
Proof.
  revert mem. induction indices as [|idx rest IH]; intros mem; simpl; constructor.
  - now exists mem.
  - apply IH.
Qed.

Lemma Forall2_Forall_r {A B : Type} (P : A -> B -> Prop) (Q : B -> Prop)
      (l : list A) (l' : list B) :
  Forall2 P l l' -> (forall x y, In x l -> P x y -> Q y) -> Forall Q l'.
Proof.
  induction 1 as [|x y l l' Hxy _ IH]; intros HQ; constructor.
  - apply (HQ x y); simpl; auto.
  - apply IH. intros x' y' Hin. apply HQ. now right.
Qed.

Lemma col_views_names (d : batch) (lo hi : nat) :
  map fst (col_views d lo hi) = map fst d.
Proof.
  unfold col_views. rewrite map_map. reflexivity.
Qed.

Lemma col_views_axis1 (d : batch) (n lo hi : nat) :
  dataset_ok d n ->
  uniform_axis1 (Nat.min hi n - Nat.min lo n) (col_views d lo hi).
Proof.
  intros [Hne H]. split.
  - destruct d; [congruence | discriminate].
  - unfold col_views. rewrite Forall_map. eapply Forall_impl; [|exact H].
    simpl. intros [k a] [_ Ha]. simpl in *. unfold axis1 at 1. simpl.
    now rewrite Ha.
Qed.

Lemma staged_or_view_axis1 (d : batch) (n lo hi : nat) (arr : option ndarray)
      (mem : heap) :
  dataset_ok d n ->
  uniform_axis1 (Nat.min hi n - Nat.min lo n) (fst (staged_or_view d arr lo hi mem)).
Proof.
  intros Hd. destruct arr as [a|]; simpl.
  - eapply same_shapes_axis1; [apply slots_same_shapes | now apply col_views_axis1].
  - now apply col_views_axis1.
Qed.

Lemma staged_or_view_names (d : batch) (lo hi : nat) (arr : option ndarray)
      (mem : heap) :
  map fst (fst (staged_or_view d arr lo hi mem)) = map fst d.
Proof.
  destruct arr as [a|]; simpl.
  - now rewrite slots_names, col_views_names.
  - apply col_views_names.
Qed.

Lemma uniform_batch_axis1 (e : nat) (b : batch) :
  uniform_axis1 e b -> batch_axis1 b = e.
Proof.
  intros [Hne H]. destruct b as [|[k a] b]; [congruence|].
  inversion H as [|? ? Ha _]. exact Ha.
Qed.

(** ** [Online] *)

Lemma online_init `{RandomState} (sh : bool) (v : option bool) (seed : option nat)
      (entropy : nat) (named : named_data) (self : Online.t) :
  Online.__init__ sh v seed entropy named = Ok self ->
  _assert_correct_data_format named = Ok (Online.nr_sequences self) /\
  Online.rnd self = Seedable_init seed entropy /\
  Online.data self = arrays_of named /\
  Online.shuffle self = sh /\
  Online.verbose self = v /\
  Online.sample_size self =
    sum (map (fun kv => column_size (snd kv)) (Online.data self)).
Proof.
  unfold Online.__init__.
  destruct (_assert_correct_data_format named) as [n|e]; simpl; [|discriminate].
  intros [= <-]. simpl. repeat split; reflexivity.
Qed.

Lemma online_body `{RandomState} (self : Online.t) (h : handler) (mem : heap) :
  dataset_ok (Online.data self) (Online.nr_sequences self) ->
  Online.sample_size self =
    sum (map (fun kv => column_size (snd kv)) (Online.data self)) ->
  let need_copy := negb (resident h (Online.data self)) in
  let arr := if need_copy
             then Some (snd (allocate h mem (Online.sample_size self))) else None in
  forall idx m,
    Online.body self need_copy arr idx m
    = Ok (staged_or_view (Online.data self) arr idx (idx + 1) m).
Proof.
  intros Hd Hsize need_copy arr idx m. unfold Online.body.
  apply (body_cols _ (Online.nr_sequences self) idx (idx + 1) 1); auto.
  - lia.
  - intros Hc. subst arr. rewrite Hc. eexists. split; [reflexivity|].
    simpl. rewrite Hsize. now rewrite Nat.mul_1_r.
  - intros Hc. subst arr. now rewrite Hc.
Qed.

Lemma online_call `{RandomState} (self : Online.t) (h : handler) (va : bool)
      (mem : heap) :
  dataset_ok (Online.data self) (Online.nr_sequences self) ->
  Online.sample_size self =
    sum (map (fun kv => column_size (snd kv)) (Online.data self)) ->
  let need_copy := negb (resident h (Online.data self)) in
  let arr := if need_copy
             then Some (snd (allocate h mem (Online.sample_size self))) else None in
  let mem1 := if need_copy
              then fst (allocate h mem (Online.sample_size self)) else mem in
  let p := if Online.shuffle self
           then rnd_shuffle (Online.rnd self) (arange (Online.nr_sequences self))
           else (Online.rnd self, arange (Online.nr_sequences self)) in
  Online.__call__ self h va mem =
  ({| with_bar := show_progress (Online.verbose self) va; started := true;
      allocated := match arr with Some a => [a] | None => [] end;
      yielded := yields_of (fun idx => staged_or_view (Online.data self) arr idx (idx + 1))
                           (snd p) mem1;
      sent := map (fun i => i + 1) (seq 0 (List.length (snd p)));
      raised := None |},
   snd p,
   {| Online.rnd := fst p; Online.nr_sequences := Online.nr_sequences self;
      Online.data := Online.data self; Online.shuffle := Online.shuffle self;
      Online.verbose := Online.verbose self;
      Online.sample_size := Online.sample_size self |}).
Proof.
  intros Hd Hsize need_copy arr mem1 p.
  pose proof (online_body self h mem Hd Hsize) as Hbody. simpl in Hbody.
  fold need_copy in Hbody. fold arr in Hbody.
  unfold Online.__call__. fold need_copy.
  assert (Hpair : (if need_copy
                   then let (m, a) := allocate h mem (Online.sample_size self) in
                        (m, Some a)
                   else (mem, None)) = (mem1, arr)).
  { subst mem1 arr. destruct need_copy; reflexivity. }
  rewrite Hpair. fold p. destruct p as [g order]. simpl.
  rewrite (for_each_total _ _ _ order Hbody). reflexivity.
Qed.

Lemma lcg_shuffle_permutes : @shuffle_permutes lcg.
Proof.
  intros g l. simpl in *. induction l as [|x rest IH]; simpl; [constructor|].
  destruct (lcg_shuffle g rest) as [g' l'] eqn:E. simpl in *.
  apply Permutation_cons_app. now rewrite firstn_skipn.
Qed.

Lemma in_arange (n idx : nat) : In idx (arange n) <-> idx < n.
Proof.
  unfold arange. rewrite in_seq. lia.
Qed.

Lemma order_permutation `{RandomState} (sh : bool) (g : rng) (l : list nat) :
  shuffle_permutes ->
  Permutation l (snd (if sh then rnd_shuffle g l else (g, l))).
Proof.
  intros Hperm. destruct sh; [apply Hperm | apply Permutation_refl].
Qed.



(** ** Machine numbers *)

Lemma int64_wrap_range (z : Z) : (- 2 ^ 63 <= int64_wrap z < 2 ^ 63)%Z.
Proof.
  unfold int64_wrap.
  assert (H64 : (2 ^ 64 = 2 * 2 ^ 63)%Z) by reflexivity.
  assert (H63 : (0 < 2 ^ 63)%Z) by reflexivity.
  pose proof (Z.mod_pos_bound (z + 2 ^ 63) (2 ^ 64)) as Hm. lia.
Qed.

Lemma int64_wrap_small (z : Z) : (- 2 ^ 63 <= z < 2 ^ 63)%Z -> int64_wrap z = z.
Proof.
  intros Hz. unfold int64_wrap.
  assert (H64 : (2 ^ 64 = 2 * 2 ^ 63)%Z) by reflexivity.
  rewrite Z.mod_small; lia.
Qed.

Lemma int64_wrap_shift (z c : Z) : int64_wrap (z + c * 2 ^ 64) = int64_wrap z.
Proof.
  unfold int64_wrap.
  replace (z + c * 2 ^ 64 + 2 ^ 63)%Z with (z + 2 ^ 63 + c * 2 ^ 64)%Z by ring.
  now rewrite Z_mod_plus_full.
Qed.

Lemma int64_wrap_eqm (z : Z) : exists c, int64_wrap z = (z + c * 2 ^ 64)%Z.
Proof.
  unfold int64_wrap. exists (- ((z + 2 ^ 63) / 2 ^ 64))%Z.
  pose proof (Z.div_mod (z + 2 ^ 63) (2 ^ 64) ltac:(discriminate)) as Hdm. lia.
Qed.

Lemma int64_wrap_mul_l (x y : Z) : int64_wrap (int64_wrap x * y) = int64_wrap (x * y).
Proof.
  destruct (int64_wrap_eqm x) as [c ->].
  replace ((x + c * 2 ^ 64) * y)%Z with (x * y + c * y * 2 ^ 64)%Z by ring.
  apply int64_wrap_shift.
Qed.

Lemma int64_wrap_mul_r (x y : Z) : int64_wrap (x * int64_wrap y) = int64_wrap (x * y).
Proof.
  rewrite Z.mul_comm, int64_wrap_mul_l. f_equal. apply Z.mul_comm.
Qed.

Lemma int64_wrap_add_r (x y : Z) : int64_wrap (x + int64_wrap y) = int64_wrap (x + y).
Proof.
  destruct (int64_wrap_eqm y) as [c ->].
  replace (x + (y + c * 2 ^ 64))%Z with (x + y + c * 2 ^ 64)%Z by ring.
  apply int64_wrap_shift.
Qed.

Lemma int64_wrap_add_l (x y : Z) : int64_wrap (int64_wrap x + y) = int64_wrap (x + y).
Proof.
  rewrite Z.add_comm, int64_wrap_add_r. f_equal. apply Z.add_comm.
Qed.

Lemma int64_of_int_ok (n : nat) : (Z.of_nat n < 2 ^ 63)%Z -> int64_of_int n = Ok (Z.of_nat n).
Proof.
  intros Hn. unfold int64_of_int. destruct (Z.ltb_spec (Z.of_nat n) (2 ^ 63)); [reflexivity | lia].
Qed.

Lemma slice_bound_nat (n x : nat) :
  (Z.of_nat x < 2 ^ 63)%Z -> slice_bound n (int64_wrap (Z.of_nat x)) = Nat.min x n.
Proof.
  intros Hx. assert (H63 : (0 < 2 ^ 63)%Z) by reflexivity.
  rewrite int64_wrap_small by lia. unfold slice_bound.
  destruct (Z.ltb_spec (Z.of_nat x) 0); [lia|]. now rewrite Nat2Z.id.
Qed.


Lemma pow2_pos (k : Z) : (0 <= k -> 0 < 2 ^ k)%Z.
Proof.
  intros Hk. apply Z.pow_pos_nonneg; lia.
Qed.

Lemma scaled_den_pos (b e : Z) : (0 < b -> 0 < scaled_den b e)%Z.
Proof.
  intros Hb. unfold scaled_den. destruct (Z.ltb_spec e 0); [lia|].
  pose proof (pow2_pos e). nia.
Qed.

(** The first exponent tried leaves 53 bits or more before the point. *)
Lemma scaled_first (a b : Z) :
  (0 < a)%Z -> (0 < b)%Z ->
  let e0 := (Z.log2 a - Z.log2 b - 53)%Z in
  (2 ^ 52 * scaled_den b e0 <= scaled_num a e0)%Z.
Proof.
  intros Ha Hb e0.
  destruct (Z.log2_spec a Ha) as [Hla _]. destruct (Z.log2_spec b Hb) as [_ Hlb].
  pose proof (Z.log2_nonneg a) as Hna. pose proof (Z.log2_nonneg b) as Hnb.
  unfold scaled_num, scaled_den. destruct (Z.ltb_spec e0 0) as [He | He].
  - assert (E : (2 ^ Z.log2 a * 2 ^ (- e0) = 2 ^ 52 * 2 ^ Z.succ (Z.log2 b))%Z).
    { rewrite <- !Z.pow_add_r by lia. f_equal. lia. }
    assert (Hp : (0 < 2 ^ (- e0))%Z) by (apply pow2_pos; lia).
    apply Z.le_trans with (2 ^ Z.log2 a * 2 ^ (- e0))%Z; [|nia].
    rewrite E. apply Z.mul_le_mono_nonneg_l; lia.
  - assert (E : (2 ^ 52 * (2 ^ Z.succ (Z.log2 b) * 2 ^ e0) = 2 ^ Z.log2 a)%Z).
    { rewrite <- !Z.pow_add_r by lia. f_equal. lia. }
    pose proof (pow2_pos e0 He) as Hp.
    apply Z.le_trans with (2 ^ Z.log2 a)%Z; [|lia]. rewrite <- E.
    apply Z.mul_le_mono_nonneg_l; [lia|]. nia.
Qed.

(** If that leaves 54 bits, the next exponent leaves 53. *)
Lemma scaled_next (a b e : Z) :
  (0 < a)%Z -> (0 < b)%Z ->
  (2 ^ 53 * scaled_den b e <= scaled_num a e)%Z ->
  (2 ^ 52 * scaled_den b (e + 1) <= scaled_num a (e + 1))%Z.
Proof.
  intros Ha Hb. unfold scaled_num, scaled_den.
  change (2 ^ 53)%Z with (2 * 2 ^ 52)%Z. generalize (2 ^ 52)%Z. intros c.
  destruct (Z.ltb_spec e 0) as [He | He]; destruct (Z.ltb_spec (e + 1) 0) as [He' | He'];
    try lia.
  - replace (- e)%Z with (Z.succ (- (e + 1))) by lia. rewrite Z.pow_succ_r by lia.
    generalize (2 ^ (- (e + 1)))%Z. intros p. nia.
  - assert (e = -1)%Z by lia. subst e. change (2 ^ (- (-1)))%Z with 2%Z.
    change (2 ^ (-1 + 1))%Z with 1%Z. nia.
  - replace (e + 1)%Z with (Z.succ e) by lia. rewrite Z.pow_succ_r by lia.
    generalize (2 ^ e)%Z. intros p. nia.
Qed.

Lemma round_half_even_spec (num den : Z) :
  (0 < den)%Z ->
  let m := round_half_even num den in
  let q := (num / den)%Z in
  let r := (num mod den)%Z in
  (num = den * q + r /\ 0 <= r < den /\
   ((m = q /\ 2 * r <= den) \/ (m = q + 1 /\ den <= 2 * r)))%Z.
Proof.
  intros Hden m q r. subst m. unfold round_half_even. fold q. fold r.
  pose proof (Z.div_mod num den ltac:(lia)) as Hdm.
  pose proof (Z.mod_pos_bound num den Hden) as Hr.
  fold q in Hdm. fold r in Hdm, Hr.
  split; [lia|]. split; [lia|].
  destruct (Z.ltb_spec (2 * r) den); [left; lia|].
  destruct (Z.ltb_spec den (2 * r)); [right; lia|].
  destruct (Z.even q); [left | right]; lia.
Qed.

(** Rounding a quotient to 53 bits does not carry it across an integer, as
    long as the dividend is at most 2^53 or the quotient at most 1. *)
Lemma ceil_of_rounded (a b e : Z) :
  (0 < a)%Z -> (0 < b)%Z ->
  (2 ^ 52 * scaled_den b e <= scaled_num a e)%Z ->
  (a <= 2 ^ 53 \/ a <= b)%Z ->
  let m := round_half_even (scaled_num a e) (scaled_den b e) in
  math_ceil {| mantissa := m; exponent := e |} = ((a + b - 1) / b)%Z /\
  (0 <= e -> m * 2 ^ e <= 2 ^ 53)%Z.
Proof.
  intros Ha Hb H1 Hab.
  set (k := ((a + b - 1) / b)%Z).
  assert (Hk : ((k - 1) * b < a <= k * b)%Z).
  { subst k. pose proof (Z.div_mod (a + b - 1) b ltac:(lia)).
    pose proof (Z.mod_pos_bound (a + b - 1) b Hb). nia. }
  clearbody k.
  pose proof (scaled_den_pos b e Hb) as Hden.
  destruct (round_half_even_spec (scaled_num a e) (scaled_den b e) Hden)
    as (Hdm & Hr & Hm).
  remember (round_half_even (scaled_num a e) (scaled_den b e)) as m eqn:Em.
  remember (scaled_num a e / scaled_den b e)%Z as q eqn:Eq.
  remember (scaled_num a e mod scaled_den b e)%Z as r eqn:Er.
  clear Em Eq Er. cbv zeta. unfold math_ceil. cbn [mantissa exponent].
  unfold scaled_num, scaled_den in *.
  assert (H53 : (2 ^ 53 = 2 * 2 ^ 52)%Z) by reflexivity.
  assert (H52 : (0 < 2 ^ 52)%Z) by reflexivity.
  destruct (Z.ltb_spec e 0) as [He | He]; destruct (Z.leb_spec 0 e) as [He' | He'];
    try lia.
  - (* the quotient is taken of [a * T] *)
    split; [|lia].
    assert (HT : (0 < 2 ^ (- e))%Z) by (apply pow2_pos; lia).
    revert H1 Hdm HT. generalize (2 ^ (- e))%Z. intros T H1 Hdm HT.
    revert H1 Hab H53 H52. generalize (2 ^ 53)%Z (2 ^ 52)%Z.
    intros c53 c52 H1 Hab H53 H52.
    assert (Hlo : ((k - 1) * T < m)%Z).
    { destruct Hab as [Hab | Hab].
      - destruct Hm as [[-> Hm] | [-> Hm]]; [|nia].
        destruct (Z_lt_le_dec ((k - 1) * T) q) as [|Hq]; [assumption|].
        assert (q = (k - 1) * T)%Z by nia. exfalso.
        assert (c52 <= q)%Z by nia.
        assert (r = T * (a - (k - 1) * b))%Z by nia.
        assert (1 <= k - 1)%Z by nia.
        assert (T <= r)%Z by nia.
        assert ((k - 1) * b < c53)%Z by lia.
        assert (b < 2 * T)%Z by nia.
        nia.
      - assert (k = 1)%Z by nia. subst k. replace ((1 - 1) * T)%Z with 0%Z by lia.
        assert (c52 <= q)%Z by nia. destruct Hm as [[-> _] | [-> _]]; lia. }
    assert (Hhi : (m <= k * T)%Z).
    { destruct Hm as [[-> Hm] | [-> Hm]]; [nia|].
      destruct (Z_lt_le_dec q (k * T)) as [|Hq]; [lia|]. exfalso. nia. }
    apply Z.opp_inj. rewrite Z.opp_involutive. symmetry.
    apply (Z.div_unique_pos _ _ _ (k * T - m)%Z); lia.
  - (* the quotient is taken by [b * D] *)
    assert (HD : (0 < 2 ^ e)%Z) by (apply pow2_pos; lia).
    revert H1 Hdm Hr Hm Hden HD. generalize (2 ^ e)%Z. intros D H1 Hdm Hr Hm Hden HD.
    destruct Hab as [Hab | Hab]; [|exfalso; nia].
    assert (HbD : (b * D <= 2)%Z) by nia.
    assert (Hcases : ((b = 1 /\ D = 1) \/ (b = 1 /\ D = 2) \/ (b = 2 /\ D = 1))%Z) by nia.
    assert (Hmk : (m * D = k)%Z).
    { destruct Hcases as [[-> ->] | [[-> ->] | [-> ->]]].
      - assert (r = 0)%Z by lia. destruct Hm as [[-> _] | [-> Hm]]; nia.
      - assert (a = 2 ^ 53)%Z by lia. assert (q = 2 ^ 52 /\ r = 0)%Z by lia.
        destruct Hm as [[-> _] | [-> Hm]]; nia.
      - assert (a = 2 ^ 53)%Z by lia. assert (q = 2 ^ 52 /\ r = 0)%Z by lia.
        destruct Hm as [[-> _] | [-> Hm]]; nia. }
    split; [exact Hmk|]. intros _. rewrite Hmk. nia.
Qed.

Lemma ceil_true_divide (a b : Z) :
  (0 < a)%Z -> (0 < b < 2 ^ 1021)%Z -> (a <= 2 ^ 53 \/ a <= b)%Z ->
  exists x, true_divide a b = Ok x /\ math_ceil x = ((a + b - 1) / b)%Z.
Proof.
  intros Ha [Hb Hb'] Hab. unfold true_divide.
  destruct (Z.eqb_spec b 0) as [|_]; [lia|]. destruct (Z.eqb_spec a 0) as [|_]; [lia|].
  set (e0 := (Z.log2 a - Z.log2 b - 53)%Z).
  set (e1 := if (_ <? _)%Z then e0 else (e0 + 1)%Z).
  assert (H1 : (2 ^ 52 * scaled_den b e1 <= scaled_num a e1)%Z).
  { subst e1.
    destruct (Z.ltb_spec (scaled_num a e0 / scaled_den b e0) (2 ^ 53)) as [_ | Hq].
    - apply scaled_first; assumption.
    - apply scaled_next; try assumption.
      pose proof (scaled_den_pos b e0 Hb) as Hd.
      pose proof (Z.mul_div_le (scaled_num a e0) (scaled_den b e0) Hd).
      revert Hq. generalize (2 ^ 53)%Z. intros c Hq. nia. }
  assert (He1 : (- 1074 <= e1)%Z).
  { assert (Z.log2 b < 1021)%Z by (apply Z.log2_lt_pow2; lia).
    pose proof (Z.log2_nonneg a). subst e1 e0. destruct (_ <? _)%Z; lia. }
  clearbody e1. rewrite Z.max_l by lia.
  destruct (ceil_of_rounded a b e1 Ha Hb H1 Hab) as [Hceil Hsmall].
  set (m := round_half_even _ _) in *. clearbody m.
  destruct (Z.leb_spec 0 e1) as [He | He]; cbn [andb].
  - destruct (Z.leb_spec (2 ^ 1024) (m * 2 ^ e1)) as [Hov|_].
    + exfalso. specialize (Hsmall He).
      assert (2 ^ 53 < 2 ^ 1024)%Z by (apply Z.pow_lt_mono_r; lia). lia.
    + eexists. split; [reflexivity | exact Hceil].
  - eexists. split; [reflexivity | exact Hceil].
Qed.

(** Where the count of chunks is the exact ceiling: for at most 2^53
    sequences, and for a batch size that is no smaller than their number. *)
Lemma ceil_div_exact (n b : nat) :
  0 < b -> (Z.of_nat b < 2 ^ 63)%Z -> exact_count n \/ n <= b ->
  ceil_div n b = Ok ((n + b - 1) / b).
Proof.
  intros Hb Hb' Hn. unfold ceil_div, exact_count in *.
  destruct n as [|n'].
  - unfold true_divide. destruct (Z.eqb_spec (Z.of_nat b) 0) as [|_]; [lia|].
    simpl. f_equal. symmetry. apply Nat.div_small. lia.
  - set (n := S n') in *.
    assert (H63 : (2 ^ 63 < 2 ^ 1021)%Z) by (apply Z.pow_lt_mono_r; lia).
    destruct (ceil_true_divide (Z.of_nat n) (Z.of_nat b)) as (x & -> & Hx); try lia.
    simpl. rewrite Hx. f_equal.
    replace (Z.of_nat n + Z.of_nat b - 1)%Z with (Z.of_nat (n + b - 1)) by lia.
    rewrite <- Nat2Z.inj_div. apply Nat2Z.id.
Qed.

Lemma ceil_div_zero (n : nat) : ceil_div n 0 = Raise (ZeroDivisionError "division by zero").
Proof.
  reflexivity.
Qed.

(** Beyond 2^53 the quotient is rounded before the ceiling is taken:
    2^53 + 1 sequences in chunks of 2^53 count as one chunk, and in chunks
    of 1 as 2^53 chunks. *)
Lemma ceil_div_rounded :
  ceil_div (Z.to_nat (2 ^ 53 + 1)) (Z.to_nat (2 ^ 53)) = Ok 1 /\
  ceil_div (Z.to_nat (2 ^ 53 + 1)) 1 = Ok (Z.to_nat (2 ^ 53)).
Proof.
  unfold ceil_div. rewrite !Z2Nat.id by discriminate.
  assert (H1 : true_divide (2 ^ 53 + 1) (2 ^ 53)
               = Ok {| mantissa := 2 ^ 52; exponent := - 52 |}) by (vm_compute; reflexivity).
  assert (H2 : true_divide (2 ^ 53 + 1) (Z.of_nat 1)
               = Ok {| mantissa := 2 ^ 52; exponent := 1 |}) by (vm_compute; reflexivity).
  rewrite H1, H2. cbn [bind]. split; f_equal.
Qed.

(** ** [Minibatches] *)

Lemma staging_term_ok (d : ndarray) (B : nat) :
  (Z.of_nat B < 2 ^ 63)%Z ->
  Minibatches.staging_term d B = Ok (int64_wrap (Z.of_nat (column_size d) * Z.of_nat B)).
Proof.
  intros HB. unfold Minibatches.staging_term. cbv zeta.
  rewrite (int64_of_int_ok B HB). cbn [bind].
  rewrite int64_wrap_mul_r, int64_wrap_mul_l, <- Nat2Z.inj_mul. reflexivity.
Qed.

Lemma staging_size_ok (B : nat) (d : batch) :
  (Z.of_nat B < 2 ^ 63)%Z ->
  forall acc, (- 2 ^ 63 <= acc < 2 ^ 63)%Z ->
    Minibatches.staging_size d B acc
    = Ok (int64_wrap (acc + Z.of_nat (sequence_size d) * Z.of_nat B)).
Proof.
  intros HB. unfold sequence_size.
  induction d as [|[k a] d IH]; intros acc Hacc; simpl.
  - rewrite Z.add_0_r, int64_wrap_small by exact Hacc. reflexivity.
  - rewrite (staging_term_ok a B HB). simpl.
    rewrite IH by apply int64_wrap_range.
    rewrite int64_wrap_add_r, int64_wrap_add_l. do 2 f_equal. lia.
Qed.

Lemma staging_size_fits (B : nat) (d : batch) (acc z : Z) :
  d <> [] -> Minibatches.staging_size d B acc = Ok z -> (Z.of_nat B < 2 ^ 63)%Z.
Proof.
  destruct d as [|[k a] d]; [congruence|]. intros _. simpl.
  unfold Minibatches.staging_term, int64_of_int.
  destruct (Z.ltb_spec (Z.of_nat B) (2 ^ 63)); [auto | discriminate].
Qed.

Lemma minibatches_init `{RandomState} (B : nat) (sh : bool) (v : option bool)
      (seed : option nat) (entropy : nat) (named : named_data) (self : Minibatches.t) :
  Minibatches.__init__ B sh v seed entropy named = Ok self ->
  _assert_correct_data_format named = Ok (Minibatches.nr_sequences self) /\
  Minibatches.rnd self = Seedable_init seed entropy /\
  Minibatches.data self = arrays_of named /\
  Minibatches.shuffle self = sh /\
  Minibatches.verbose self = v /\
  Minibatches.batch_size self = B /\
  (Z.of_nat (Minibatches.batch_size self) < 2 ^ 63)%Z /\
  Minibatches.sample_size self =
    int64_wrap (Z.of_nat (sequence_size (Minibatches.data self))
                * Z.of_nat (Minibatches.batch_size self)).
Proof.
  unfold Minibatches.__init__.
  destruct (_assert_correct_data_format named) as [n|e] eqn:Hv; simpl; [|discriminate].
  destruct (Minibatches.staging_size (arrays_of named) B 0) as [z|e] eqn:Hz; simpl;
    [|discriminate].
  intros [= <-]. simpl.
  destruct (validated_dataset _ _ Hv) as [[Hne _] _].
  pose proof (staging_size_fits B _ 0 z Hne Hz) as HB.
  rewrite (staging_size_ok B _ HB 0) in Hz by (split; [discriminate | reflexivity]).
  injection Hz as <-. repeat split; auto.
Qed.

(** Construction succeeds on every validated dataset for a batch size below
    2^63, and fails on it for any other. *)
Lemma minibatches_init_ok `{RandomState} (B : nat) (sh : bool) (v : option bool)
      (seed : option nat) (entropy : nat) (named : named_data) (N : nat) :
  _assert_correct_data_format named = Ok N ->
  (Z.of_nat B < 2 ^ 63)%Z ->
  Minibatches.__init__ B sh v seed entropy named
  = Ok {| Minibatches.rnd := Seedable_init seed entropy;
          Minibatches.nr_sequences := N;
          Minibatches.data := arrays_of named;
          Minibatches.shuffle := sh; Minibatches.verbose := v;
          Minibatches.batch_size := B;
          Minibatches.sample_size :=
            int64_wrap (Z.of_nat (sequence_size (arrays_of named)) * Z.of_nat B) |}.
Proof.
  intros Hv HB. unfold Minibatches.__init__. rewrite Hv. simpl.
  rewrite (staging_size_ok B _ HB 0) by (split; [discriminate | reflexivity]).
  reflexivity.
Qed.

Lemma chunk_len_le (n b idx : nat) : chunk_len n b idx <= b.
Proof.
  unfold chunk_len. nia.
Qed.

Lemma ceil_div_bounds (n b : nat) :
  0 < b -> n <= (n + b - 1) / b * b /\ (n + b - 1) / b * b < n + b.
Proof.
  intros Hb.
  pose proof (Nat.Div0.mul_div_le (n + b - 1) b) as Hlo.
  pose proof (Nat.mul_succ_div_gt (n + b - 1) b) as Hhi.
  nia.
Qed.

Lemma chunk_len_full (n b idx : nat) :
  0 < b -> idx + 1 < (n + b - 1) / b -> chunk_len n b idx = b.
Proof.
  intros Hb Hidx. destruct (ceil_div_bounds n b Hb) as [_ Hhi].
  unfold chunk_len. nia.
Qed.

Lemma sum_chunk_len_prefix (n b k : nat) :
  sum (map (chunk_len n b) (seq 0 k)) = Nat.min (k * b) n.
Proof.
  induction k as [|k IH]; [reflexivity|].
  rewrite seq_S, map_app. simpl.
  assert (Happ : forall l1 l2, sum (l1 ++ l2) = sum l1 + sum l2).
  { induction l1 as [|x l1 IHl]; intros l2; simpl; [reflexivity|].
    rewrite IHl. lia. }
  rewrite Happ, IH. simpl. unfold chunk_len. nia.
Qed.

Lemma sum_permutation (l1 l2 : list nat) : Permutation l1 l2 -> sum l1 = sum l2.
Proof.
  induction 1; simpl; lia.
Qed.

Lemma sum_chunk_len (n b : nat) (order : list nat) :
  0 < b -> Permutation (arange ((n + b - 1) / b)) order ->
  sum (map (chunk_len n b) order) = n.
Proof.
  intros Hb Hp.
  rewrite <- (sum_permutation _ _ (Permutation_map (chunk_len n b) Hp)).
  unfold arange. rewrite sum_chunk_len_prefix.
  destruct (ceil_div_bounds n b Hb) as [Hlo _]. lia.
Qed.

(** The bounds of every chunk of a call stay below 2^63. *)
Lemma chunk_bounds_fit (n b idx : nat) :
  0 < b -> (Z.of_nat b < 2 ^ 63)%Z -> exact_count n \/ n <= b ->
  idx < (n + b - 1) / b ->
  (Z.of_nat ((idx + 1) * b) < 2 ^ 63)%Z.
Proof.
  intros Hb Hb' Hn Hidx. unfold exact_count in Hn.
  destruct (ceil_div_bounds n b Hb) as [_ Hhi].
  assert (H53 : (2 ^ 63 = 1024 * 2 ^ 53)%Z) by reflexivity.
  assert (H0 : (0 < 2 ^ 53)%Z) by reflexivity.
  destruct (Nat.le_gt_cases n b) as [Hle | Hgt].
  - assert ((n + b - 1) / b < 2) by (apply Nat.Div0.div_lt_upper_bound; lia).
    assert (idx = 0) by lia. subst idx. simpl. rewrite Nat.add_0_r. exact Hb'.
  - destruct Hn as [Hn | Hn]; [|lia].
    assert ((idx + 1) * b < n + b) by nia. lia.
Qed.

Lemma getitem_cols_clipped (a : ndarray) (x y : nat) :
  getitem_cols a (Nat.min x (nth 1 (shape a) 0)) (Nat.min y (nth 1 (shape a) 0))
  = getitem_cols a x y.
Proof.
  unfold getitem_cols. destruct (shape a) as [|t [|n rest]]; simpl; try reflexivity.
  now rewrite <- !Nat.min_assoc, Nat.min_id.
Qed.

(** The slice of a chunk whose bounds stay below 2^63. *)
Lemma chunk_cols `{RandomState} (self : Minibatches.t) (idx : nat) (a : ndarray) :
  (Z.of_nat ((idx + 1) * Minibatches.batch_size self) < 2 ^ 63)%Z ->
  getitem_cols a (Minibatches.chunk_start self (nth 1 (shape a) 0) idx)
               (Minibatches.chunk_stop self (nth 1 (shape a) 0) idx)
  = getitem_cols a (idx * Minibatches.batch_size self)
                 ((idx + 1) * Minibatches.batch_size self).
Proof.
  intros Hfit. unfold Minibatches.chunk_start, Minibatches.chunk_stop.
  rewrite int64_wrap_mul_l.
  replace (Z.of_nat idx * Z.of_nat (Minibatches.batch_size self))%Z
    with (Z.of_nat (idx * Minibatches.batch_size self)) by lia.
  replace ((Z.of_nat idx + 1) * Z.of_nat (Minibatches.batch_size self))%Z
    with (Z.of_nat ((idx + 1) * Minibatches.batch_size self)) by lia.
  rewrite !slice_bound_nat by lia. apply getitem_cols_clipped.
Qed.

Lemma copy_loop_ext (slice slice' : ndarray -> result ndarray) (arr : ndarray) :
  (forall v, slice v = slice' v) ->
  forall items j mem acc,
    copy_loop slice arr j mem items acc = copy_loop slice' arr j mem items acc.
Proof.
  intros Hs. induction items as [|[k v] items IH]; intros j mem acc; simpl;
    [reflexivity|].
  rewrite Hs. destruct (slice' v) as [s|e]; simpl; [|reflexivity].
  destruct (getitem_range arr j (j + size s)) as [flat|e]; simpl; [|reflexivity].
  destruct (reshape flat (shape s)) as [dst|e]; simpl; [|reflexivity]. apply IH.
Qed.

Lemma view_loop_ext (slice slice' : ndarray -> result ndarray) :
  (forall v, slice v = slice' v) ->
  forall items, view_loop slice items = view_loop slice' items.
Proof.
  intros Hs. induction items as [|[k v] items IH]; simpl; [reflexivity|].
  now rewrite Hs, IH.
Qed.

Lemma minibatches_body `{RandomState} (self : Minibatches.t) (need_copy : bool)
      (arr : option ndarray) :
  dataset_ok (Minibatches.data self) (Minibatches.nr_sequences self) ->
  (need_copy = true ->
   exists a, arr = Some a /\
             shape a = [sequence_size (Minibatches.data self)
                        * Minibatches.batch_size self]) ->
  (need_copy = false -> arr = None) ->
  forall idx m,
    (Z.of_nat ((idx + 1) * Minibatches.batch_size self) < 2 ^ 63)%Z ->
    Minibatches.body self need_copy arr idx m
    = Ok (staged_or_view (Minibatches.data self) arr
            (idx * Minibatches.batch_size self)
            ((idx + 1) * Minibatches.batch_size self) m).
Proof.
  intros Hd Hcopy Hview idx m Hfit.
  pose proof (body_cols (Minibatches.data self) (Minibatches.nr_sequences self)
                (idx * Minibatches.batch_size self)
                ((idx + 1) * Minibatches.batch_size self)
                (Minibatches.batch_size self) need_copy arr m Hd
                (chunk_len_le _ _ _) Hcopy Hview) as Hb.
  rewrite <- Hb. unfold Minibatches.body. cbv zeta.
  destruct need_copy.
  - destruct arr as [a|]; [|reflexivity].
    apply copy_loop_ext. intros v. now apply chunk_cols.
  - erewrite view_loop_ext; [reflexivity|]. intros v. now apply chunk_cols.
Qed.

Lemma for_each_total_in (body : nat -> heap -> result (batch * heap))
      (F : nat -> heap -> batch * heap) (progress : nat -> nat) (indices : list nat) :
  (forall idx mem, In idx indices -> body idx mem = Ok (F idx mem)) ->
  forall i mem,
    for_each body progress i indices mem
    = (yields_of F indices mem, map progress (seq i (List.length indices)), None).
Proof.
  induction indices as [|idx rest IH]; intros HF i mem; simpl; [reflexivity|].
  rewrite HF by (simpl; auto). destruct (F idx mem) as [b mem'] eqn:E.
  rewrite IH by (intros idx' m' Hin; apply HF; simpl; auto). reflexivity.
Qed.

(** The buffer of a call that can stage: none, or one of as many elements as
    [batch_size] sequences have. *)
Lemma minibatches_buffer `{RandomState} (self : Minibatches.t) (h : handler) (mem : heap) :
  Minibatches.sample_size self =
    int64_wrap (Z.of_nat (sequence_size (Minibatches.data self))
                * Z.of_nat (Minibatches.batch_size self)) ->
  can_stage self h ->
  let room := sequence_size (Minibatches.data self) * Minibatches.batch_size self in
  (if negb (resident h (Minibatches.data self))
   then ma <- allocate_int64 h mem (Minibatches.sample_size self) ;;
        Ok (fst ma, Some (snd ma))
   else Ok (mem, None))
  = Ok (if negb (resident h (Minibatches.data self))
        then (fst (allocate h mem room), Some (snd (allocate h mem room)))
        else (mem, None)).
Proof.
  intros Hsize Hfit room.
  destruct (resident h (Minibatches.data self)) eqn:Hres; simpl; [reflexivity|].
  destruct Hfit as [Hfit | Hfit]; [congruence|].
  assert (Hrange : (- 2 ^ 63 <= Z.of_nat (sequence_size (Minibatches.data self))
                                * Z.of_nat (Minibatches.batch_size self) < 2 ^ 63)%Z).
  { split; [|exact Hfit]. assert (0 < 2 ^ 63)%Z by reflexivity. lia. }
  rewrite Hsize, (int64_wrap_small _ Hrange).
  unfold allocate_int64.
  destruct (Z.ltb_spec (Z.of_nat (sequence_size (Minibatches.data self))
                        * Z.of_nat (Minibatches.batch_size self)) 0); [lia|].
  rewrite <- Nat2Z.inj_mul, Nat2Z.id. reflexivity.
Qed.

Lemma minibatches_call `{R : RandomState} (Hperm : shuffle_permutes)
      (self : Minibatches.t) (h : handler) (va : bool) (mem : heap) :
  dataset_ok (Minibatches.data self) (Minibatches.nr_sequences self) ->
  (Z.of_nat (Minibatches.batch_size self) < 2 ^ 63)%Z ->
  Minibatches.sample_size self =
    int64_wrap (Z.of_nat (sequence_size (Minibatches.data self))
                * Z.of_nat (Minibatches.batch_size self)) ->
  0 < Minibatches.batch_size self ->
  exact_count (Minibatches.nr_sequences self)
  \/ Minibatches.nr_sequences self <= Minibatches.batch_size self ->
  can_stage self h ->
  let B := Minibatches.batch_size self in
  let need_copy := negb (resident h (Minibatches.data self)) in
  let room := sequence_size (Minibatches.data self) * B in
  let arr := if need_copy then Some (snd (allocate h mem room)) else None in
  let mem1 := if need_copy then fst (allocate h mem room) else mem in
  let chunks := arange ((Minibatches.nr_sequences self + B - 1) / B) in
  let p := if Minibatches.shuffle self
           then rnd_shuffle (Minibatches.rnd self) chunks
           else (Minibatches.rnd self, chunks) in
  Minibatches.__call__ self h va mem =
  ({| with_bar := show_progress (Minibatches.verbose self) va; started := true;
      allocated := match arr with Some a => [a] | None => [] end;
      yielded := yields_of (fun idx => staged_or_view (Minibatches.data self) arr
                                         (idx * B) ((idx + 1) * B))
                           (snd p) mem1;
      sent := map (fun i => (i + 1) * B) (seq 0 (List.length (snd p)));
      raised := None |},
   snd p,
   {| Minibatches.rnd := fst p;
      Minibatches.nr_sequences := Minibatches.nr_sequences self;
      Minibatches.data := Minibatches.data self;
      Minibatches.shuffle := Minibatches.shuffle self;
      Minibatches.verbose := Minibatches.verbose self;
      Minibatches.batch_size := Minibatches.batch_size self;
      Minibatches.sample_size := Minibatches.sample_size self |}).
Proof.
  intros Hd HB63 Hsize HB Hcount Hfit B need_copy room arr mem1 chunks p.
  unfold Minibatches.__call__. fold need_copy. fold B.
  pose proof (minibatches_buffer self h mem Hsize Hfit) as Hbuf. cbv zeta in Hbuf.
  fold need_copy in Hbuf. fold B in Hbuf. fold room in Hbuf. rewrite Hbuf.
  assert (Hpair : (if need_copy
                   then (fst (allocate h mem room), Some (snd (allocate h mem room)))
                   else (mem, None)) = (mem1, arr)).
  { subst mem1 arr. destruct need_copy; reflexivity. }
  rewrite Hpair. rewrite (ceil_div_exact _ B HB HB63 Hcount).
  fold chunks. fold p.
  assert (Hp : Permutation chunks (snd p)) by (apply order_permutation, Hperm).
  destruct p as [g order]. simpl in Hp |- *.
  rewrite (for_each_total_in _ (fun idx => staged_or_view (Minibatches.data self) arr
                                            (idx * B) ((idx + 1) * B))).
  - reflexivity.
  - intros idx m Hin. apply minibatches_body; auto.
    + intros Hc. subst arr. rewrite Hc. eexists. split; reflexivity.
    + intros Hc. subst arr. now rewrite Hc.
    + apply (Permutation_in _ (Permutation_sym Hp)), in_arange in Hin.
      apply (chunk_bounds_fit (Minibatches.nr_sequences self)); assumption.
Qed.

Lemma minibatches_call_zero `{RandomState} (self : Minibatches.t) (h : handler)
      (va : bool) (mem : heap) :
  Minibatches.batch_size self = 0 ->
  Minibatches.sample_size self = 0%Z ->
  Minibatches.__call__ self h va mem =
  ({| with_bar := show_progress (Minibatches.verbose self) va; started := true;
      allocated := if negb (resident h (Minibatches.data self))
                   then [snd (allocate h mem 0)]
                   else [];
      yielded := []; sent := [];
      raised := Some (ZeroDivisionError "division by zero") |},
   [], self).
Proof.
  intros HB Hsize. unfold Minibatches.__call__. rewrite HB, Hsize, ceil_div_zero.
  destruct (negb (resident h (Minibatches.data self))); reflexivity.
Qed.


Lemma Forall2_removelast {A B : Type} (P : A -> B -> Prop) (l : list A) (l' : list B) :
  Forall2 P l l' -> Forall2 P (removelast l) (removelast l').
Proof.
  induction 1 as [|x y l l' Hxy Hrest IH]; simpl; [constructor|].
  destruct Hrest; [constructor|]. constructor; assumption.
Qed.

Lemma removelast_arange (n : nat) : removelast (arange n) = arange (n - 1).
Proof.
  unfold arange. destruct n as [|n]; [reflexivity|].
  rewrite seq_S, removelast_last. f_equal. lia.
Qed.

(** C5, counterexample.  With shuffling the short chunk need not
    come last: for 5 sequences in chunks of 2 and the seed 7 the chunks come
    in the order 2, 0, 1, so the first yielded batch has axis-1 extent 1. *)
Lemma short_chunk_not_last :
  exists self,
    @Minibatches.__init__ lcg 2 true None (Some 7) 0 two_arrays = Ok self /\
    let '(r, order, _) := Minibatches.__call__ self host false two_buffers in
    order = [2; 0; 1] /\
    map (fun y => batch_axis1 (fst y)) (yielded r) = [1; 2; 2] /\
    ~ Forall (fun y => batch_axis1 (fst y) = 2) (removelast (yielded r)).
Proof.
  eexists. split; [reflexivity|]. vm_compute.
  split; [reflexivity|]. split; [reflexivity|].
  intros H. inversion H as [|? ? Hhd _]. discriminate Hhd.
Qed.

(** C5, amended.  For a validated dataset with [N] sequences, [N] at most
    2^53, and a positive [batch_size] [B], one call of [Minibatches] that
    can have its buffer ends normally after exactly [ceil(N/B)] yields; each
    batch has one axis-1 extent, and these sum to [N]; the batch of every
    chunk but the one of highest index has extent [B]; without shuffling
    that chunk comes last, so that all batches except the last one yielded
    have extent [B]. *)
Theorem minibatches_batches `{R : RandomState} (Hperm : shuffle_permutes)
        (B : nat) (sh : bool) (v : option bool) (seed : option nat) (entropy : nat)
        (named : named_data) (self : Minibatches.t) (h : handler) (va : bool)
        (mem : heap) :
  0 < B ->
  Minibatches.__init__ B sh v seed entropy named = Ok self ->
  exact_count (Minibatches.nr_sequences self) ->
  can_stage self h ->
  let '(r, order, _) := Minibatches.__call__ self h va mem in
  let N := Minibatches.nr_sequences self in
  let C := (N + B - 1) / B in
  _assert_correct_data_format named = Ok N /\
  (N <= C * B /\ C * B < N + B) /\
  raised r = None /\
  List.length (yielded r) = C /\
  Forall (fun y => uniform_axis1 (batch_axis1 (fst y)) (fst y) /\
                   map fst (fst y) = map fst named) (yielded r) /\
  sum (map (fun y => batch_axis1 (fst y)) (yielded r)) = N /\
  Permutation (arange C) order /\
  Forall2 (fun idx y => batch_axis1 (fst y) = chunk_len N B idx /\
                        (idx + 1 < C -> batch_axis1 (fst y) = B))
          order (yielded r) /\
  (sh = false ->
   order = arange C /\
   Forall (fun y => batch_axis1 (fst y) = B) (removelast (yielded r))).
Proof.
  intros HB Hinit Hexact Hfit.
  apply minibatches_init in Hinit
    as (Hv & Hrnd & Hdata & Hsh & Hverb & HBs & HB63 & Hsize).
  destruct (validated_dataset _ _ Hv) as [Hd Hnamed]. rewrite <- Hdata in Hd.
  assert (HB' : 0 < Minibatches.batch_size self) by lia.
  rewrite (minibatches_call Hperm self h va mem Hd HB63 Hsize HB' (or_introl Hexact) Hfit).
  rewrite HBs.
  set (N := Minibatches.nr_sequences self) in *.
  set (C := (N + B - 1) / B).
  set (p := if Minibatches.shuffle self then _ else _).
  assert (Hp : Permutation (arange C) (snd p)) by (apply order_permutation, Hperm).
  set (arr := if negb (resident h (Minibatches.data self)) then _ else None).
  cbv zeta. simpl.
  set (ys := yields_of _ (snd p) _).
  assert (Hys : Forall2 (fun idx y =>
                  exists m, y = staged_or_view (Minibatches.data self) arr
                                               (idx * B) ((idx + 1) * B) m)
                  (snd p) ys) by apply yields_of_Forall2.
  assert (Hext : Forall2 (fun idx y => uniform_axis1 (chunk_len N B idx) (fst y))
                         (snd p) ys).
  { eapply Forall2_impl; [|exact Hys]. simpl. intros idx y (m & ->).
    apply (staged_or_view_axis1 _ N (idx * B) ((idx + 1) * B) arr m Hd). }
  assert (Hlen : Forall2 (fun idx y => batch_axis1 (fst y) = chunk_len N B idx)
                         (snd p) ys).
  { eapply Forall2_impl; [|exact Hext]. simpl. intros idx y Hu.
    now apply uniform_batch_axis1. }
  split; [exact Hv|]. split; [apply ceil_div_bounds, HB|].
  split; [reflexivity|]. split; [|split; [|split; [|split; [|split]]]].
  - subst ys. rewrite length_yields_of, <- (Permutation_length Hp).
    unfold arange. now rewrite length_seq.
  - eapply Forall2_Forall_r; [exact Hys|]. simpl. intros idx y _ (m & ->). split.
    + pose proof (staged_or_view_axis1 _ N (idx * B) ((idx + 1) * B) arr m Hd) as Hu.
      now rewrite (uniform_batch_axis1 _ _ Hu).
    + rewrite staged_or_view_names, Hdata.
      transitivity (map fst (as_named (arrays_of named))); [|now rewrite Hnamed].
      unfold as_named. rewrite map_map. reflexivity.
  - replace (map (fun y => batch_axis1 (fst y)) ys) with (map (chunk_len N B) (snd p)).
    + now apply sum_chunk_len.
    + clear -Hlen. induction Hlen as [|idx y l l' Hy _ IH]; simpl; [reflexivity|].
      now rewrite Hy, IH.
  - exact Hp.
  - eapply Forall2_impl; [|exact Hlen]. simpl. intros idx y Hy. split; [exact Hy|].
    intros Hidx. rewrite Hy. now apply chunk_len_full.
  - intros ->. assert (Hord : snd p = arange C) by (subst p; now rewrite Hsh).
    split; [exact Hord|].
    apply Forall2_removelast in Hlen. rewrite Hord, removelast_arange in Hlen.
    eapply Forall2_Forall_r; [exact Hlen|]. simpl. intros idx y Hin Hy.
    apply in_arange in Hin. rewrite Hy. apply chunk_len_full; [exact HB | fold C; lia].
Qed.

Lemma minibatches_batches_witness :
  exists self,
    @Minibatches.__init__ lcg 2 true None (Some 7) 0 two_arrays = Ok self /\
    let '(r, order, _) := Minibatches.__call__ self device false two_buffers in
    raised r = None /\ List.length (yielded r) = 3 /\
    sum (map (fun y => batch_axis1 (fst y)) (yielded r)) = 5 /\
    Forall2 (fun idx y => idx + 1 < 3 -> batch_axis1 (fst y) = 2) order (yielded r).
Proof.
  eexists. split; [reflexivity|].
  pose proof (@minibatches_batches lcg lcg_shuffle_permutes 2 true None (Some 7) 0
                two_arrays _ device false two_buffers (Nat.lt_0_succ 1) eq_refl) as H.
  assert (Hexact : exact_count 5) by (vm_compute; discriminate).
  specialize (H Hexact (or_intror eq_refl)).
  destruct (Minibatches.__call__ _ device false two_buffers) as [[r order] self'].
  destruct H as (_ & _ & Hr & Hlen & _ & Hsum & _ & Hall & _).
  repeat split; try assumption.
  eapply Forall2_impl; [|exact Hall]. simpl. tauto.
Defined.

(** C9.  With [batch_size = 0] construction on a validated dataset succeeds,
    and every call then ends with a [ZeroDivisionError] from the count of
    chunks, without having yielded anything. *)
Theorem minibatches_zero_batch_size `{R : RandomState} (sh : bool) (v : option bool)
        (seed : option nat) (entropy : nat) (named : named_data) (N : nat) :
  _assert_correct_data_format named = Ok N ->
  exists self,
    Minibatches.__init__ 0 sh v seed entropy named = Ok self /\
    ceil_div (Minibatches.nr_sequences self) (Minibatches.batch_size self)
    = Raise (ZeroDivisionError "division by zero") /\
    forall h va mem,
      let '(r, order, self') := Minibatches.__call__ self h va mem in
      yielded r = [] /\ sent r = [] /\
      raised r = Some (ZeroDivisionError "division by zero") /\
      order = [] /\ self' = self.
Proof.
  intros Hv. rewrite (minibatches_init_ok 0 sh v seed entropy named N Hv) by reflexivity.
  eexists. split; [reflexivity|]. split; [apply ceil_div_zero|].
  intros h va mem. rewrite minibatches_call_zero.
  - repeat split; reflexivity.
  - reflexivity.
  - cbn [Minibatches.sample_size]. now rewrite Z.mul_0_r.
Qed.

Lemma minibatches_zero_batch_size_witness :
  exists self,
    @Minibatches.__init__ lcg 0 true None (Some 7) 0 two_arrays = Ok self /\
    yielded (fst (fst (Minibatches.__call__ self device true two_buffers))) = [] /\
    raised (fst (fst (Minibatches.__call__ self device true two_buffers)))
    = Some (ZeroDivisionError "division by zero").
Proof.
  destruct (@minibatches_zero_batch_size lcg true None (Some 7) 0 two_arrays 5 eq_refl)
    as (self & Hinit & _ & Hcall).
  exists self. split; [exact Hinit|].
  specialize (Hcall device true two_buffers).
  destruct (Minibatches.__call__ self device true two_buffers) as [[r order] self'].
  simpl. destruct Hcall as (Hy & _ & Hr & _). split; assumption.
Defined.

(** ** Orderings *)













(** ** The heap *)

Lemma length_list_set {A : Type} (l : list A) (i : nat) (x : A) :
  List.length (list_set l i x) = List.length l.
Proof.
  revert i. induction l as [|y l IH]; intros [|i]; simpl; auto.
Qed.

Lemma nth_list_set_eq {A : Type} (l : list A) (i : nat) (x d : A) :
  i < List.length l -> nth i (list_set l i x) d = x.
Proof.
  revert i. induction l as [|y l IH]; intros [|i]; simpl; intros Hi; try lia; auto.
  apply IH. lia.
Qed.

Lemma nth_list_set_neq {A : Type} (l : list A) (i j : nat) (x d : A) :
  i <> j -> nth j (list_set l i x) d = nth j l d.
Proof.
  revert i j. induction l as [|y l IH]; intros [|i] [|j]; simpl; intros Hij;
    try lia; auto.
Qed.

Lemma buffer_length_in_heap (mem : heap) (b ad : nat) :
  ad < List.length (nth b mem []) -> b < List.length mem.
Proof.
  intros Had. destruct (Nat.lt_ge_cases b (List.length mem)) as [Hb | Hb]; [exact Hb|].
  rewrite (nth_overflow mem [] Hb) in Had. simpl in Had. lia.
Qed.

Lemma load_store_same (mem : heap) (b ad : nat) (x : scalar) :
  ad < List.length (nth b mem []) -> load (store mem b ad x) b ad = x.
Proof.
  intros Had. unfold load, store.
  rewrite nth_list_set_eq by (eapply buffer_length_in_heap; exact Had).
  now apply nth_list_set_eq.
Qed.

Lemma buffer_store_other (mem : heap) (b b' ad : nat) (x : scalar) :
  b' <> b -> nth b' (store mem b ad x) [] = nth b' mem [].
Proof.
  intros Hb. unfold store. apply nth_list_set_neq. congruence.
Qed.

Lemma buffer_store_length (mem : heap) (b b' ad : nat) (x : scalar) :
  List.length (nth b' (store mem b ad x) []) = List.length (nth b' mem []).
Proof.
  destruct (Nat.eq_dec b' b) as [-> | Hb]; [|now rewrite buffer_store_other].
  unfold store. destruct (Nat.lt_ge_cases b (List.length mem)) as [Hlt | Hge].
  - rewrite nth_list_set_eq by exact Hlt. apply length_list_set.
  - rewrite !nth_overflow; auto. now rewrite length_list_set.
Qed.

Lemma load_store_other (mem : heap) (b ad b' ad' : nat) (x : scalar) :
  b' <> b \/ ad' <> ad -> load (store mem b ad x) b' ad' = load mem b' ad'.
Proof.
  intros H. unfold load. destruct (Nat.eq_dec b' b) as [-> | Hb].
  - destruct H as [H | H]; [congruence|]. unfold store.
    destruct (Nat.lt_ge_cases b (List.length mem)) as [Hlt | Hge].
    + rewrite nth_list_set_eq by exact Hlt. apply nth_list_set_neq. congruence.
    + rewrite (nth_overflow (list_set _ _ _)) by (now rewrite length_list_set).
      now rewrite (nth_overflow mem).
  - now rewrite buffer_store_other.
Qed.

(** Writing the values [vs] to the addresses [o], [o+1], ... of buffer [b]. *)
Lemma load_blit (b : nat) (vs : list scalar) :
  forall (o : nat) (mem : heap) (b' ad : nat),
    o + List.length vs <= List.length (nth b mem []) ->
    load (fold_left (fun m (w : nat * scalar) => store m b (fst w) (snd w))
                    (combine (seq o (List.length vs)) vs) mem) b' ad
    = if (b' =? b) && (o <=? ad) && (ad <? o + List.length vs)
      then nth (ad - o) vs 0%Z
      else load mem b' ad.
Proof.
  induction vs as [|v vs IH]; intros o mem b' ad Hlen.
  - cbn [List.length seq combine fold_left].
    destruct (Nat.eqb_spec b' b), (Nat.leb_spec o ad), (Nat.ltb_spec ad (o + 0));
      cbn [andb]; try reflexivity; lia.
  - cbn [List.length seq combine fold_left fst snd]. cbn [List.length] in Hlen.
    rewrite IH by (rewrite buffer_store_length; lia).
    destruct (Nat.eqb_spec b' b) as [-> | Hb]; cbn [andb];
      [|apply load_store_other; now left].
    destruct (Nat.leb_spec (S o) ad), (Nat.leb_spec o ad),
             (Nat.ltb_spec ad (S o + List.length vs)),
             (Nat.ltb_spec ad (o + S (List.length vs))); cbn [andb]; try lia.
    + replace (ad - o) with (S (ad - S o)) by lia. reflexivity.
    + apply load_store_other. right. lia.
    + assert (ad = o) by lia. subst ad. rewrite Nat.sub_diag. cbn [nth].
      apply load_store_same. lia.
    + apply load_store_other. right. lia.
Qed.

Lemma blit_buffer_length (b : nat) (ws : list (nat * scalar)) (mem : heap) (b' : nat) :
  List.length (nth b' (fold_left (fun m (w : nat * scalar) =>
                                    store m b (fst w) (snd w)) ws mem) [])
  = List.length (nth b' mem []).
Proof.
  revert mem. induction ws as [|w ws IH]; intros mem; simpl; [reflexivity|].
  now rewrite IH, buffer_store_length.
Qed.

Lemma blit_buffer_other (b : nat) (ws : list (nat * scalar)) (mem : heap) (b' : nat) :
  b' <> b ->
  nth b' (fold_left (fun m (w : nat * scalar) => store m b (fst w) (snd w)) ws mem) []
  = nth b' mem [].
Proof.
  intros Hb. revert mem. induction ws as [|w ws IH]; intros mem; simpl; [reflexivity|].
  now rewrite IH, buffer_store_other.
Qed.

Lemma flat_map_length_const {A B : Type} (f : A -> list B) (p : nat) (l : list A) :
  (forall x, List.length (f x) = p) ->
  List.length (flat_map f l) = List.length l * p.
Proof.
  intros Hf. induction l as [|x l IH]; simpl; [reflexivity|].
  now rewrite length_app, Hf, IH.
Qed.

Lemma length_addresses (shp : list nat) :
  forall off strd, List.length (addresses off shp strd) = prod shp.
Proof.
  induction shp as [|n shp IH]; intros off strd; simpl; [reflexivity|].
  rewrite (flat_map_length_const _ (prod shp)) by (intros i; apply IH).
  now rewrite length_seq.
Qed.

Lemma length_to_list (mem : heap) (a : ndarray) :
  List.length (to_list mem a) = size a.
Proof.
  unfold to_list, size. now rewrite length_map, length_addresses.
Qed.

Lemma flat_map_seq_blocks (n off p : nat) :
  flat_map (fun i => seq (off + i * p) p) (seq 0 n) = seq off (n * p).
Proof.
  induction n as [|n IH]; [reflexivity|].
  rewrite seq_S, flat_map_app, IH. simpl. rewrite app_nil_r.
  replace (p + n * p) with (n * p + p) by lia. now rewrite seq_app.
Qed.

Lemma addresses_c_strides (shp : list nat) :
  forall off, addresses off shp (c_strides shp) = seq off (prod shp).
Proof.
  induction shp as [|n shp IH]; intros off; simpl; [reflexivity|].
  rewrite <- flat_map_seq_blocks. apply flat_map_ext. intros i. apply IH.
Qed.

Lemma to_list_buffer (mem mem' : heap) (a : ndarray) :
  nth (base a) mem' [] = nth (base a) mem [] -> to_list mem' a = to_list mem a.
Proof.
  intros H. unfold to_list, load. now rewrite H.
Qed.

Lemma to_list_slot (mem : heap) (arr : ndarray) (b len j : nat) (shp : list nat) :
  flat_buffer arr b len ->
  to_list mem (slot arr j shp) = map (load mem b) (seq j (prod shp)).
Proof.
  intros (Hb & Ho & _ & Hst). unfold to_list, slot. simpl.
  rewrite addresses_c_strides, Hb, Ho, Hst. simpl.
  now rewrite Nat.mul_1_r.
Qed.

Lemma set_from_numpy_slot (mem : heap) (arr : ndarray) (b len j : nat) (s : ndarray) :
  flat_buffer arr b len ->
  set_from_numpy mem (slot arr j (shape s)) s
  = fold_left (fun m (w : nat * scalar) => store m b (fst w) (snd w))
              (combine (seq j (List.length (to_list mem s))) (to_list mem s)) mem.
Proof.
  intros (Hb & Ho & _ & Hst). unfold set_from_numpy, slot. simpl.
  rewrite addresses_c_strides, Hb, Ho, Hst, length_to_list. simpl.
  now rewrite Nat.mul_1_r.
Qed.

Lemma map_nth_shift (vs : list scalar) (j : nat) :
  map (fun ad => nth (ad - j) vs 0%Z) (seq j (List.length vs)) = vs.
Proof.
  revert j. induction vs as [|v vs IH]; intros j; simpl; [reflexivity|].
  rewrite Nat.sub_diag. f_equal. rewrite <- (IH (S j)) at 2.
  apply map_ext_in. intros ad Had. apply in_seq in Had.
  replace (ad - j) with (S (ad - S j)) by lia. reflexivity.
Qed.

Lemma Forall2_impl_r {A B : Type} (P R : A -> B -> Prop) (Q : B -> Prop)
      (l : list A) (l' : list B) :
  Forall2 P l l' -> Forall Q l' -> (forall x y, P x y -> Q y -> R x y) ->
  Forall2 R l l'.
Proof.
  induction 1 as [|x y l l' Hxy _ IH]; intros HQ HR; [constructor|].
  apply Forall_cons_iff in HQ as [Hy HQ]. constructor; auto.
Qed.

(** Staging a list of slices: only the staging buffer changes, the part of
    it below the first slot is kept, and each slot reads as the slice that
    was copied into it. *)
Lemma staged_mem_spec (arr : ndarray) (b len : nat) :
  flat_buffer arr b len ->
  forall (slices : batch) (j : nat) (mem : heap),
    List.length (nth b mem []) = len ->
    j + sum (map (fun kv => size (snd kv)) slices) <= len ->
    Forall (fun ks => base (snd ks) <> b) slices ->
    let mem' := staged_mem arr j mem slices in
    (forall b', b' <> b -> nth b' mem' [] = nth b' mem []) /\
    (forall ad, ad < j -> load mem' b ad = load mem b ad) /\
    List.length (nth b mem' []) = len /\
    Forall2 (fun kv ks => fst kv = fst ks /\
                          to_list mem' (snd kv) = to_list mem (snd ks))
            (slots arr j slices) slices.
Proof.
  intros Harr. induction slices as [|[k s] slices IH]; intros j mem Hlen Hfit Hsrc.
  - simpl. repeat split; auto.
  - simpl in Hfit. apply Forall_cons_iff in Hsrc as [Hs Hsrc']. simpl in Hs.
    cbn [staged_mem slots]. rewrite (set_from_numpy_slot mem arr b _ j s Harr).
    set (vs := to_list mem s).
    assert (Hvs : List.length vs = size s) by apply length_to_list.
    set (mem1 := fold_left _ _ mem).
    assert (Hother : forall b', b' <> b -> nth b' mem1 [] = nth b' mem [])
      by (intros b' Hb'; now apply blit_buffer_other).
    assert (Hlen1 : List.length (nth b mem1 []) = List.length (nth b mem []))
      by apply blit_buffer_length.
    assert (Hload : forall ad,
               load mem1 b ad = if (j <=? ad) && (ad <? j + List.length vs)
                                then nth (ad - j) vs 0%Z else load mem b ad).
    { intros ad. subst mem1. rewrite load_blit by lia.
      now rewrite Nat.eqb_refl. }
    destruct (IH (j + size s) mem1) as (Ho & Hlow & Hl & Hall); try lia; auto.
    repeat split.
    + intros b' Hb'. now rewrite Ho, Hother.
    + intros ad Had. rewrite Hlow by lia. rewrite Hload.
      destruct (Nat.leb_spec j ad); [lia | reflexivity].
    + exact Hl.
    + constructor.
      * simpl. split; [reflexivity|].
        rewrite (to_list_slot _ arr b len j _ Harr). fold (size s).
        transitivity (map (fun ad => nth (ad - j) vs 0%Z) (seq j (List.length vs)));
          [|apply map_nth_shift].
        rewrite Hvs. apply map_ext_in. intros ad Had. apply in_seq in Had.
        rewrite Hlow by lia. rewrite Hload.
        destruct (Nat.leb_spec j ad), (Nat.ltb_spec ad (j + List.length vs));
          cbn [andb]; lia.
      * eapply Forall2_impl_r; [exact Hall | exact Hsrc'|].
        simpl. intros kv ks [Hk Ht] Hks.
        split; [exact Hk|]. rewrite Ht. apply to_list_buffer, Hother, Hks.
Qed.

(** ** Views and staged copies *)




Lemma slots_structure (arr : ndarray) (slices : batch) :
  forall j,
    Forall2 (fun kv ks => fst kv = fst ks /\ cls (snd kv) = cls arr /\
                          base (snd kv) = base arr /\
                          shape (snd kv) = shape (snd ks))
            (slots arr j slices) slices.
Proof.
  induction slices as [|[k s] slices IH]; intros j; simpl; constructor; auto.
Qed.






Lemma view_loop_chunk (f g : nat -> nat) (d : batch) (n : nat) :
  dataset_ok d n ->
  view_loop (fun v => getitem_cols v (f (nth 1 (shape v) 0)) (g (nth 1 (shape v) 0))) d
  = Ok (col_views d (f n) (g n)).
Proof.
  intros [_ H]. induction H as [|[k a] d [Hr Ha] _ IH]; simpl; [reflexivity|].
  simpl in Hr, Ha. unfold axis1 in Ha. rewrite Ha, getitem_cols_ok by lia.
  simpl. rewrite IH. reflexivity.
Qed.






(** * Further properties *)

(** ** The validator: which error, and the order of the entries *)

Lemma collect_first_offender (good rest : named_data) (name : string) (v : pyobj) :
  Forall well_shaped good ->
  ~ well_shaped (name, v) ->
  forall acc,
    collect_nr_sequences (good ++ (name, v) :: rest) acc
    = Raise (IteratorValidationError
               (if hasattr_shape v then rank_msg else no_shape_msg name)).
Proof.
  intros Hgood Hbad. induction Hgood as [|[k w] good (a & Ha & Hr) _ IH]; intros acc.
  - simpl. destruct v as [a | l | | d]; simpl; try reflexivity.
    destruct (ndim a <? 3) eqn:Hr; [reflexivity|].
    apply Nat.ltb_ge in Hr. exfalso. apply Hbad. now exists a.
  - simpl in Ha. subst w. simpl. apply Nat.ltb_ge in Hr. rewrite Hr. apply IH.
Qed.

(** X1.  The error raised is that of the first entry, in iteration order,
    that has no shape or too few axes: later entries, whatever their
    defects, and differing sequence counts play no part. *)
Theorem validator_first_offender (good rest : named_data) (name : string) (v : pyobj) :
  Forall well_shaped good ->
  ~ well_shaped (name, v) ->
  _assert_correct_data_format (good ++ (name, v) :: rest)
  = Raise (IteratorValidationError
             (if hasattr_shape v then rank_msg else no_shape_msg name)).
Proof.
  intros Hgood Hbad. unfold _assert_correct_data_format.
  now rewrite (collect_first_offender good rest name v Hgood Hbad).
Qed.

Lemma validator_first_offender_witness :
  _assert_correct_data_format
    (mismatched ++ ("mask", PArray (example_array 0 2 [5; 3])) :: [("lengths", PNone)])
  = Raise (IteratorValidationError rank_msg).
Proof.
  apply (validator_first_offender mismatched [("lengths", PNone)] "mask"
           (PArray (example_array 0 2 [5; 3]))).
  - repeat constructor; eexists; (split; [reflexivity | vm_compute; lia]).
  - intros (a & Ha & Hr). simpl in Ha. injection Ha as <-. vm_compute in Hr. lia.
Defined.

Lemma validator_ok_iff (named : named_data) (n : nat) :
  _assert_correct_data_format named = Ok n <->
  named <> [] /\
  Forall (fun kv => exists a, snd kv = PArray a /\ 3 <= ndim a /\ axis1 a = n) named.
Proof.
  split.
  - intros E. pose proof (validator_cases named) as H. rewrite E in H.
    destruct H as (Hne & Hall & Hext). split; [exact Hne|].
    rewrite Forall_forall in *. intros [k v] Hin.
    destruct (Hall _ Hin) as (a & Ha & Hr). simpl in Ha. subst v.
    exists a. repeat split; auto. apply arrays_of_in in Hin. exact (Hext _ Hin).
  - intros [Hne Hall].
    pose proof (validator_cases named) as H.
    destruct (_assert_correct_data_format named) as [m | e] eqn:E.
    + destruct H as (_ & _ & Hext). f_equal.
      destruct named as [|[k v] named]; [congruence|].
      inversion Hall as [|? ? (a & Ha & _ & Hn) _]; subst. simpl in Ha. subst v.
      simpl in Hext. inversion Hext; subst. simpl in *. congruence.
    + exfalso. rewrite Forall_forall in Hall.
      destruct e as [msg | msg | msg | msg | msg | msg]; try contradiction.
      * destruct H as [(k & v & Hin & Hl & _) | [(k & a & Hin & Hr & _) | Hd]].
        -- destruct (Hall _ Hin) as (a & Ha & _). simpl in Ha. subst v. discriminate.
        -- destruct (Hall _ Hin) as (b & Hb & Hrb & _). simpl in Hb.
           injection Hb as <-. lia.
        -- destruct Hd as (_ & _ & k1 & a1 & k2 & a2 & H1 & H2 & Hne12).
           apply arrays_of_in in H1, H2.
           destruct (Hall _ H1) as (b1 & Hb1 & _ & Hn1).
           destruct (Hall _ H2) as (b2 & Hb2 & _ & Hn2).
           simpl in Hb1, Hb2. injection Hb1 as <-. injection Hb2 as <-. congruence.
      * destruct H as [-> _]. congruence.
Qed.

(** X2.  Whether a dictionary is accepted, and the count returned for it, do
    not depend on the order in which the dictionary is gone through; nor
    does the kind of failure.  (The text of a validation error may.) *)
Theorem validator_order_independent (named named' : named_data) :
  Permutation named named' ->
  (forall n, _assert_correct_data_format named = Ok n <->
             _assert_correct_data_format named' = Ok n) /\
  (is_validation_error (_assert_correct_data_format named) <->
   is_validation_error (_assert_correct_data_format named')).
Proof.
  intros Hp.
  assert (Hok : forall l l', Permutation l l' -> forall n,
             _assert_correct_data_format l = Ok n ->
             _assert_correct_data_format l' = Ok n).
  { intros l l' Hll n Hn. apply validator_ok_iff in Hn as [Hne Hall].
    apply validator_ok_iff. split.
    - intros ->. apply Permutation_sym, Permutation_nil in Hll. congruence.
    - eapply Permutation_Forall; eassumption. }
  assert (Herr : forall l l', Permutation l l' ->
             is_validation_error (_assert_correct_data_format l) ->
             is_validation_error (_assert_correct_data_format l')).
  { intros l l' Hll Hl.
    pose proof (validator_cases l') as H'.
    destruct (_assert_correct_data_format l') as [n | e] eqn:E'.
    - apply (Hok _ _ (Permutation_sym Hll)) in E'. destruct Hl as (msg & Hmsg).
      congruence.
    - destruct e as [msg | msg | msg | msg | msg | msg]; try contradiction.
      + now exists msg.
      + destruct H' as [-> _]. apply Permutation_sym, Permutation_nil in Hll.
        subst l. destruct Hl as (m & Hm). discriminate. }
  split; [|split; apply Herr; auto using Permutation_sym].
  intros n. split; apply Hok; auto using Permutation_sym.
Qed.

Lemma validator_order_independent_witness :
  _assert_correct_data_format (rev two_arrays) = Ok 5.
Proof.
  apply (proj1 (validator_order_independent two_arrays (rev two_arrays)
                  (Permutation_rev two_arrays)) 5).
  reflexivity.
Defined.

(** ** [Undivided]: what the copy holds *)

Lemma length_store (mem : heap) (b ad : nat) (x : scalar) :
  List.length (store mem b ad x) = List.length mem.
Proof.
  unfold store. apply length_list_set.
Qed.

Lemma length_set_from_numpy (mem : heap) (dst src : ndarray) :
  List.length (set_from_numpy mem dst src) = List.length mem.
Proof.
  unfold set_from_numpy. generalize (to_list mem src). intros vs.
  generalize (addresses (offset dst) (shape dst) (strides dst)). intros ads.
  revert vs mem. induction ads as [|ad ads IH]; intros [|v vs] mem; simpl; auto.
  now rewrite IH, length_store.
Qed.

Lemma length_staged_mem (arr : ndarray) (slices : batch) :
  forall j mem, List.length (staged_mem arr j mem slices) = List.length mem.
Proof.
  induction slices as [|[k s] slices IH]; intros j mem; simpl; [reflexivity|].
  now rewrite IH, length_set_from_numpy.
Qed.

Lemma slots_reads (mem : heap) (arr : ndarray) (b len : nat) (slices : batch) :
  flat_buffer arr b len ->
  forall j,
    flat_map (fun kv => to_list mem (snd kv)) (slots arr j slices)
    = map (load mem b) (seq j (sum (map (fun kv => size (snd kv)) slices))).
Proof.
  intros Harr. induction slices as [|[k s] slices IH]; intros j; simpl; [reflexivity|].
  rewrite IH, (to_list_slot _ arr b len j _ Harr), seq_app, map_app.
  reflexivity.
Qed.

Lemma flat_map_Forall2 {A B C : Type} (f : A -> list C) (g : B -> list C)
      (l : list A) (l' : list B) :
  Forall2 (fun x y => f x = g y) l l' -> flat_map f l = flat_map g l'.
Proof.
  induction 1 as [|x y l l' Hxy _ IH]; simpl; [reflexivity|]. now rewrite Hxy, IH.
Qed.

Lemma Forall2_conj {A B : Type} (P Q : A -> B -> Prop) (l : list A) (l' : list B) :
  Forall2 P l l' -> Forall2 Q l l' -> Forall2 (fun x y => P x y /\ Q x y) l l'.
Proof.
  induction 1 as [|x y l l' Hxy _ IH]; intros HQ; [constructor|].
  inversion HQ; subst. constructor; auto.
Qed.

Lemma map_load_all (mem : heap) (b : nat) :
  map (load mem b) (seq 0 (List.length (nth b mem []))) = nth b mem [].
Proof.
  transitivity (map (fun ad => nth (ad - 0) (nth b mem []) 0%Z)
                    (seq 0 (List.length (nth b mem [])))); [|apply map_nth_shift].
  apply map_ext. intros ad. unfold load. now rewrite Nat.sub_0_r.
Qed.

(** X3.  When the arrays of a validated dataset live in the caller's heap,
    the batch [Undivided] yields reads, name by name, as the original
    arrays; the caller's buffers are left as they were; and the one new
    buffer holds the elements of the arrays, one array after the other in
    the order of the dictionary, and nothing more. *)
Theorem undivided_copy_faithful (named : named_data) (self : Undivided.t)
        (h : handler) (verbose : bool) (mem : heap) :
  Undivided.__init__ named = Ok self ->
  Forall (fun ka => base (snd ka) < List.length mem) (Undivided.data self) ->
  exists device_data mem',
    yielded (Undivided.__call__ self h verbose mem) = [(device_data, mem')] /\
    Forall2 (fun kv ka => fst kv = fst ka /\ shape (snd kv) = shape (snd ka) /\
                          to_list mem' (snd kv) = to_list mem (snd ka))
            device_data (Undivided.data self) /\
    (forall b, b < List.length mem -> nth b mem' [] = nth b mem []) /\
    List.length mem' = S (List.length mem) /\
    nth (List.length mem) mem' []
    = flat_map (fun ka => to_list mem (snd ka)) (Undivided.data self).
Proof.
  intros Hinit Hsrc. apply undivided_init in Hinit as (Hall & _ & Hdata & Hsize).
  rewrite <- Hdata in Hsize.
  pose proof (undivided_call self h verbose mem Hsize) as Hcall.
  unfold allocate in Hcall. rewrite Hcall. simpl.
  set (len := Undivided.total_size self) in *.
  set (arr := {| cls := array_type h; base := List.length mem; offset := 0;
                 shape := [len]; strides := [1] |}).
  set (mem1 := mem ++ [repeat 0%Z len]).
  assert (Harr : flat_buffer arr (List.length mem) len) by (repeat split).
  assert (Hlen1 : List.length (nth (List.length mem) mem1 []) = len)
    by (subst mem1; rewrite nth_middle; apply repeat_length).
  assert (Hne : Forall (fun ks => base (snd ks) <> List.length mem) (Undivided.data self))
    by (eapply Forall_impl; [|exact Hsrc]; simpl; intros; lia).
  destruct (staged_mem_spec arr _ len Harr (Undivided.data self) 0 mem1 Hlen1)
    as (Hother & _ & Hlen' & Hreads); [simpl; lia | exact Hne |].
  set (mem' := staged_mem arr 0 mem1 (Undivided.data self)) in *.
  assert (Hsame : forall b, b < List.length mem -> nth b mem' [] = nth b mem []).
  { intros b Hb. rewrite Hother by lia. subst mem1. now apply app_nth1. }
  assert (Hcopy : Forall2 (fun kv ka => to_list mem' (snd kv) = to_list mem (snd ka))
                          (slots arr 0 (Undivided.data self)) (Undivided.data self)).
  { eapply Forall2_impl_r; [exact Hreads | exact Hsrc|]. simpl.
    intros kv ka [_ Ht] Hka. rewrite Ht. apply to_list_buffer.
    rewrite <- (Hsame _ Hka). symmetry. apply Hother. lia. }
  exists (slots arr 0 (Undivided.data self)), mem'.
  split; [reflexivity|]. split; [|split; [exact Hsame|split]].
  - pose proof (Forall2_conj _ _ _ _ (slots_structure arr (Undivided.data self) 0)
                              Hcopy) as Hboth.
    eapply Forall2_impl; [|exact Hboth]. simpl. tauto.
  - subst mem' mem1. now rewrite length_staged_mem, length_app, Nat.add_comm.
  - rewrite <- (flat_map_Forall2 _ _ _ _ Hcopy).
    rewrite (slots_reads mem' arr _ len _ Harr 0), <- Hsize.
    fold len. rewrite <- Hlen'. apply eq_sym, map_load_all.
Qed.

Lemma undivided_copy_faithful_witness :
  exists self device_data mem',
    Undivided.__init__ two_arrays = Ok self /\
    yielded (Undivided.__call__ self device false two_buffers) = [(device_data, mem')] /\
    nth 2 mem' [] = map Z.of_nat (seq 100 30 ++ seq 200 10).
Proof.
  eexists.
  destruct (undivided_copy_faithful two_arrays _ device false two_buffers eq_refl)
    as (device_data & mem' & Hy & _ & _ & _ & Hbuf).
  - repeat constructor.
  - exists device_data, mem'. split; [reflexivity|]. split; [exact Hy|].
    exact Hbuf.
Defined.

(** ** Progress values *)






(** ** Successive calls on one instance *)






(** ** The chunks of [Minibatches] *)

(** X6.  The chunks of one call share out the sequences (with at most 2^53
    of them, and in a call that can have its buffer): no chunk index comes
    twice, the batch of chunk [idx] has as many columns as the range from
    [idx * B] holds, and every sequence index below [N] lies in the range
    of exactly one chunk of the call. *)
Theorem minibatches_partition `{R : RandomState} (Hperm : shuffle_permutes)
        (B : nat) (sh : bool) (v : option bool) (seed : option nat) (entropy : nat)
        (named : named_data) (self : Minibatches.t) (h : handler) (va : bool)
        (mem : heap) :
  0 < B ->
  Minibatches.__init__ B sh v seed entropy named = Ok self ->
  exact_count (Minibatches.nr_sequences self) ->
  can_stage self h ->
  let '(r, order, _) := Minibatches.__call__ self h va mem in
  let N := Minibatches.nr_sequences self in
  NoDup order /\
  Forall2 (fun idx y => batch_axis1 (fst y) = chunk_len N B idx) order (yielded r) /\
  forall s, s < N ->
    exists idx,
      In idx order /\
      idx * B <= s < idx * B + chunk_len N B idx /\
      forall idx', In idx' order ->
                   idx' * B <= s < idx' * B + chunk_len N B idx' -> idx' = idx.
Proof.
  intros HB Hinit Hexact Hfit.
  apply minibatches_init in Hinit as (Hv & _ & Hdata & _ & _ & HBs & HB63 & Hsize).
  destruct (validated_dataset _ _ Hv) as [Hd _]. rewrite <- Hdata in Hd.
  assert (HB' : 0 < Minibatches.batch_size self) by lia.
  rewrite (minibatches_call Hperm self h va mem Hd HB63 Hsize HB' (or_introl Hexact) Hfit).
  rewrite HBs.
  set (N := Minibatches.nr_sequences self) in *.
  set (C := (N + B - 1) / B).
  set (p := if Minibatches.shuffle self then _ else _).
  assert (Hp : Permutation (arange C) (snd p)) by (apply order_permutation, Hperm).
  cbv zeta. simpl.
  destruct (ceil_div_bounds N B HB) as [Hlo Hhi]. fold C in Hlo, Hhi.
  split; [|split].
  - apply (Permutation_NoDup Hp). apply seq_NoDup.
  - eapply Forall2_impl; [|apply yields_of_Forall2]. simpl. intros idx y (m & ->).
    apply uniform_batch_axis1.
    apply (staged_or_view_axis1 _ N (idx * B) ((idx + 1) * B) _ m Hd).
  - intros s Hs. exists (s / B).
    pose proof (Nat.Div0.mul_div_le s B) as Hle.
    pose proof (Nat.mul_succ_div_gt s B) as Hgt.
    assert (Hidx : s / B < C) by (apply Nat.Div0.div_lt_upper_bound; nia).
    split; [|split].
    + apply (Permutation_in _ Hp), in_arange, Hidx.
    + unfold chunk_len. nia.
    + intros idx' _ Hrange. unfold chunk_len in Hrange.
      assert (idx' * B <= s < (idx' + 1) * B) by nia.
      apply (Nat.div_unique s B idx' (s - idx' * B)); nia.
Qed.

Lemma minibatches_partition_witness :
  exists self,
    @Minibatches.__init__ lcg 2 true None (Some 7) 0 two_arrays = Ok self /\
    let '(r, order, _) := Minibatches.__call__ self host false two_buffers in
    NoDup order /\
    exists idx, In idx order /\ idx * 2 <= 4 < idx * 2 + chunk_len 5 2 idx.
Proof.
  eexists. split; [reflexivity|].
  pose proof (@minibatches_partition lcg lcg_shuffle_permutes 2 true None (Some 7) 0
                two_arrays _ host false two_buffers (Nat.lt_0_succ 1) eq_refl) as H.
  assert (Hexact : exact_count 5) by (vm_compute; discriminate).
  specialize (H Hexact (or_introl eq_refl)).
  destruct (Minibatches.__call__ _ host false two_buffers) as [[r order] self'].
  destruct H as (Hnd & _ & Hcover). split; [exact Hnd|].
  destruct (Hcover 4) as (idx & Hin & Hrange & _); [simpl; lia|].
  exists idx. split; assumption.
Defined.

(** ** [Minibatches]: machine numbers at their limits *)

(** The staging loop fails at the first slot that does not fit the buffer. *)
Lemma copy_loop_short (slice : ndarray -> result ndarray) (arr : ndarray) (L : nat)
      (items slices : batch) :
  shape arr = [L] ->
  view_loop slice items = Ok slices ->
  forall j mem acc,
    j <= L ->
    L < j + sum (map (fun kv => size (snd kv)) slices) ->
    copy_loop slice arr j mem items acc = Raise (ValueError "cannot reshape array").
Proof.
  intros Hs. revert slices. induction items as [|[k v] items IH]; intros slices; simpl.
  - intros [= <-] j mem acc Hj Hlt. simpl in Hlt. lia.
  - destruct (slice v) as [s|e] eqn:Hv; simpl; [|discriminate].
    destruct (view_loop slice items) as [tail|e] eqn:Ht; simpl; [|discriminate].
    intros [= <-] j mem acc Hj Hlt. simpl in Hlt.
    destruct (Nat.le_gt_cases (j + size s) L) as [Hfit | Hover].
    + pose proof (getitem_range_slot arr L j (size s) (shape s) Hs Hfit eq_refl) as Hslot.
      unfold bind in Hslot |- *.
      destruct (getitem_range arr j (j + size s)) as [flat|e]; [|discriminate].
      rewrite Hslot. apply (IH tail eq_refl); lia.
    + unfold getitem_range. rewrite Hs. simpl. unfold reshape. unfold size at 1. simpl.
      destruct (Nat.eqb_spec ((Nat.min (j + size s) L - Nat.min j L) * 1)
                             (prod (shape s))) as [Heq|]; [|reflexivity].
      unfold size in Hover. lia.
Qed.

(** X12.  The count of elements to stage is a machine integer, and a
    wrapped one can be too small: when it is not negative but below the
    count of elements of a single sequence, a call that has to copy gets a
    buffer of that many elements, starts its progress reporter, and ends
    with a [ValueError] at the first slot that does not fit the buffer,
    before its first yield. *)
Theorem staging_too_small `{R : RandomState} (Hperm : shuffle_permutes)
        (B : nat) (sh : bool) (v : option bool) (seed : option nat) (entropy : nat)
        (named : named_data) (self : Minibatches.t) (h : handler) (va : bool)
        (mem : heap) :
  Minibatches.__init__ B sh v seed entropy named = Ok self ->
  0 < B ->
  0 < Minibatches.nr_sequences self ->
  exact_count (Minibatches.nr_sequences self) \/ Minibatches.nr_sequences self <= B ->
  resident h (Minibatches.data self) = false ->
  (0 <= Minibatches.sample_size self
   < Z.of_nat (sequence_size (Minibatches.data self)))%Z ->
  let '(r, order, _) := Minibatches.__call__ self h va mem in
  started r = true /\
  allocated r = [snd (allocate h mem (Z.to_nat (Minibatches.sample_size self)))] /\
  yielded r = [] /\ sent r = [] /\
  exists msg, raised r = Some (ValueError msg).
Proof.
  intros Hinit HB HN Hcount Hres Hsmall.
  apply minibatches_init in Hinit as (Hv & _ & Hdata & _ & _ & HBs & HB63 & _).
  destruct (validated_dataset _ _ Hv) as [Hd _]. rewrite <- Hdata in Hd.
  rewrite <- HBs in HB, Hcount.
  set (N := Minibatches.nr_sequences self) in *.
  set (L := Z.to_nat (Minibatches.sample_size self)).
  unfold Minibatches.__call__, allocate_int64. rewrite Hres. cbn [negb].
  destruct (Z.ltb_spec (Minibatches.sample_size self) 0) as [|_]; [lia|].
  cbn [bind fst snd]. fold N. fold L.
  rewrite (ceil_div_exact N _ HB HB63 Hcount).
  set (C := (N + Minibatches.batch_size self - 1) / Minibatches.batch_size self).
  set (p := if Minibatches.shuffle self then _ else _).
  assert (Hp : Permutation (arange C) (snd p)) by (apply order_permutation, Hperm).
  destruct p as [g order]. simpl in Hp.
  destruct order as [|idx rest].
  { apply Permutation_length in Hp. unfold arange in Hp. rewrite length_seq in Hp.
    simpl in Hp. destruct (ceil_div_bounds N _ HB) as [Hlo _]. fold C in Hlo. nia. }
  assert (Hidx : idx < C).
  { apply in_arange. apply (Permutation_in _ (Permutation_sym Hp)). now left. }
  pose proof (chunk_bounds_fit N _ idx HB HB63 Hcount Hidx) as Hfit.
  assert (Hbody : Minibatches.body self true
                    (Some (snd (allocate h mem L))) idx (fst (allocate h mem L))
                  = Raise (ValueError "cannot reshape array")).
  { unfold Minibatches.body. cbv zeta.
    rewrite (copy_loop_ext _ (fun a => getitem_cols a (idx * Minibatches.batch_size self)
                                         ((idx + 1) * Minibatches.batch_size self)))
      by (intros a; now apply chunk_cols).
    apply (copy_loop_short _ (snd (allocate h mem L)) L _ _ eq_refl
             (view_loop_cols _ _ _ (dataset_ok_rank2 _ _ Hd))); [lia|].
    rewrite (sum_sizes_col_views _ N _ _ Hd), sum_map_scale.
    fold (sequence_size (Minibatches.data self)).
    destruct (ceil_div_bounds N _ HB) as [_ Hhi]. fold C in Hhi.
    assert (Hlen : 1 <= Nat.min ((idx + 1) * Minibatches.batch_size self) N
                        - Nat.min (idx * Minibatches.batch_size self) N) by nia.
    assert (HL : L < sequence_size (Minibatches.data self)) by (subst L; lia).
    nia. }
  cbn [for_each]. rewrite Hbody. repeat split. eexists. reflexivity.
Qed.

Lemma staging_too_small_witness :
  exists self,
    @Minibatches.__init__ lcg (Z.to_nat (2 ^ 62)) true None (Some 7) 0 two_arrays
    = Ok self /\
    Minibatches.sample_size self = 0%Z /\
    let '(r, order, _) := Minibatches.__call__ self device false two_buffers in
    started r = true /\
    allocated r
    = [snd (allocate device two_buffers (Z.to_nat (Minibatches.sample_size self)))] /\
    yielded r = [] /\ sent r = [] /\
    exists msg, raised r = Some (ValueError msg).
Proof.
  assert (HB : Z.of_nat (Z.to_nat (2 ^ 62)) = (2 ^ 62)%Z) by (apply Z2Nat.id; discriminate).
  assert (Hsize : int64_wrap (Z.of_nat (sequence_size (arrays_of two_arrays))
                              * Z.of_nat (Z.to_nat (2 ^ 62))) = 0%Z)
    by (rewrite HB; reflexivity).
  assert (Hinit : @Minibatches.__init__ lcg (Z.to_nat (2 ^ 62)) true None (Some 7) 0
                                        two_arrays
                  = Ok {| Minibatches.rnd := @Seedable_init lcg (Some 7) 0;
                          Minibatches.nr_sequences := 5;
                          Minibatches.data := arrays_of two_arrays;
                          Minibatches.shuffle := true; Minibatches.verbose := None;
                          Minibatches.batch_size := Z.to_nat (2 ^ 62);
                          Minibatches.sample_size :=
                            int64_wrap (Z.of_nat (sequence_size (arrays_of two_arrays))
                                        * Z.of_nat (Z.to_nat (2 ^ 62))) |}).
  { apply minibatches_init_ok; [reflexivity|]. rewrite HB. reflexivity. }
  eexists. split; [exact Hinit|]. split; [exact Hsize|].
  apply (@staging_too_small lcg lcg_shuffle_permutes _ _ _ _ _ _ _ device false
           two_buffers Hinit).
  - lia.
  - cbn [Minibatches.nr_sequences]. lia.
  - right. cbn [Minibatches.nr_sequences]. lia.
  - reflexivity.
  - cbn [Minibatches.sample_size Minibatches.data]. rewrite Hsize. split; reflexivity.
Defined.

(** Beyond 2^53 sequences a call can miss one: 2^53 + 1 sequences in chunks
    of 2^53 are gone through in a single chunk of 2^53 columns, and the
    last sequence is in no batch. *)
Lemma last_sequence_missed `{R : RandomState} (Hperm : shuffle_permutes)
      (sh : bool) (v : option bool) (seed : option nat) (entropy : nat)
      (named : named_data) (self : Minibatches.t) (h : handler) (va : bool)
      (mem : heap) :
  Minibatches.__init__ (Z.to_nat (2 ^ 53)) sh v seed entropy named = Ok self ->
  Minibatches.nr_sequences self = Z.to_nat (2 ^ 53 + 1) ->
  resident h (Minibatches.data self) = true ->
  let '(r, order, _) := Minibatches.__call__ self h va mem in
  order = [0] /\ raised r = None /\
  yielded r = [(col_views (Minibatches.data self) 0 (Z.to_nat (2 ^ 53)), mem)].
Proof.
  intros Hinit HN Hres.
  apply minibatches_init in Hinit as (Hv & _ & Hdata & _ & _ & HBs & _ & _).
  destruct (validated_dataset _ _ Hv) as [Hd _]. rewrite <- Hdata in Hd.
  unfold Minibatches.__call__. rewrite Hres. cbn [negb].
  rewrite HN, HBs, (proj1 ceil_div_rounded).
  change (arange 1) with [0].
  set (p := if Minibatches.shuffle self then _ else _).
  assert (Hp : Permutation [0] (snd p)) by (apply order_permutation, Hperm).
  apply Permutation_length_1_inv in Hp.
  destruct p as [g order]. simpl in Hp. subst order.
  cbn [for_each]. unfold Minibatches.body.
  rewrite (view_loop_chunk (fun n => Minibatches.chunk_start self n 0)
                           (fun n => Minibatches.chunk_stop self n 0) _ _ Hd).
  cbn [bind]. split; [reflexivity|]. split; [reflexivity|].
  cbn [yielded]. do 3 f_equal.
  unfold Minibatches.chunk_stop. rewrite HBs, HN, Z2Nat.id by discriminate.
  change (int64_wrap (int64_wrap (Z.of_nat 0 + 1) * 2 ^ 53)) with (2 ^ 53)%Z.
  unfold slice_bound. change (2 ^ 53 <? 0)%Z with false. cbv iota. lia.
Qed.

Lemma last_sequence_missed_example :
  exists self,
    @Minibatches.__init__ lcg (Z.to_nat (2 ^ 53)) true None (Some 7) 0 long_dataset
    = Ok self /\
    Minibatches.nr_sequences self = Z.to_nat (2 ^ 53 + 1) /\
    let '(r, order, _) := Minibatches.__call__ self host false [] in
    order = [0] /\ raised r = None /\
    yielded r = [(col_views (Minibatches.data self) 0 (Z.to_nat (2 ^ 53)), [])].
Proof.
  assert (Hv : _assert_correct_data_format long_dataset = Ok (Z.to_nat (2 ^ 53 + 1))).
  { unfold long_dataset. generalize (Z.to_nat (2 ^ 53 + 1)). intros N.
    unfold _assert_correct_data_format. simpl. rewrite Nat.eqb_refl. reflexivity. }
  assert (HB : (Z.of_nat (Z.to_nat (2 ^ 53)) < 2 ^ 63)%Z)
    by (rewrite Z2Nat.id by discriminate; reflexivity).
  pose proof (@minibatches_init_ok lcg (Z.to_nat (2 ^ 53)) true None (Some 7) 0
                long_dataset _ Hv HB) as Hinit.
  eexists. split; [exact Hinit|]. split; [reflexivity|].
  apply (@last_sequence_missed lcg lcg_shuffle_permutes _ _ _ _ _ _ host false []
           Hinit); reflexivity.
Qed.

(** ** [Minibatches] against [Online] and against the whole dataset *)

Lemma yields_of_ext (F G : nat -> heap -> batch * heap) (indices : list nat) :
  (forall idx m, F idx m = G idx m) ->
  forall mem, yields_of F indices mem = yields_of G indices mem.
Proof.
  intros HFG. induction indices as [|idx rest IH]; intros mem; simpl; [reflexivity|].
  now rewrite HFG, IH.
Qed.

(** X7.  [Minibatches] with [batch_size = 1] is [Online], for at most 2^53
    sequences and in a call that can have its buffer: built from the same
    arguments, the two instances run alike on the call (the same
    allocation, batches, heaps, progress values, ending and index sequence)
    and leave their random generators in the same state.  (Beyond 2^53
    sequences the count of chunks is a rounded one, see [ceil_div_rounded].) *)
Theorem minibatches_of_one_is_online `{R : RandomState} (Hperm : shuffle_permutes)
        (sh : bool) (v : option bool) (seed : option nat) (entropy : nat)
        (named : named_data) (chunks : Minibatches.t) (samples : Online.t)
        (h : handler) (va : bool) (mem : heap) :
  Minibatches.__init__ 1 sh v seed entropy named = Ok chunks ->
  Online.__init__ sh v seed entropy named = Ok samples ->
  exact_count (Online.nr_sequences samples) ->
  can_stage chunks h ->
  let '(r1, order1, chunks') := Minibatches.__call__ chunks h va mem in
  let '(r2, order2, samples') := Online.__call__ samples h va mem in
  r1 = r2 /\ order1 = order2 /\ Minibatches.rnd chunks' = Online.rnd samples'.
Proof.
  intros H1 H2 Hexact Hfit.
  apply minibatches_init in H1 as (Hv1 & Hr1 & Hd1 & Hs1 & Hb1 & HB & HB63 & Hsize1).
  apply online_init in H2 as (Hv2 & Hr2 & Hd2 & Hs2 & Hb2 & Hsize2).
  assert (HN : Minibatches.nr_sequences chunks = Online.nr_sequences samples)
    by congruence.
  destruct (validated_dataset _ _ Hv1) as [Hdo1 _]. rewrite <- Hd1 in Hdo1.
  destruct (validated_dataset _ _ Hv2) as [Hdo2 _]. rewrite <- Hd2 in Hdo2.
  assert (HB' : 0 < Minibatches.batch_size chunks) by lia.
  rewrite <- HN in Hexact.
  rewrite (minibatches_call Hperm chunks h va mem Hdo1 HB63 Hsize1 HB' (or_introl Hexact)
                            Hfit).
  rewrite (online_call samples h va mem Hdo2 Hsize2).
  rewrite Hsize2, HB, HN, Hd1, Hd2, Hr1, Hr2, Hs1, Hs2, Hb1, Hb2.
  unfold sequence_size. rewrite Nat.mul_1_r, Nat.add_sub, Nat.div_1_r.
  cbv zeta. cbn [Minibatches.rnd Online.rnd].
  repeat split. f_equal.
  - apply yields_of_ext. intros idx m. now rewrite !Nat.mul_1_r.
  - apply map_ext. intros i. apply Nat.mul_1_r.
Qed.

Lemma minibatches_of_one_is_online_witness :
  exists chunks samples,
    @Minibatches.__init__ lcg 1 true None (Some 3) 0 two_arrays = Ok chunks /\
    @Online.__init__ lcg true None (Some 3) 0 two_arrays = Ok samples /\
    fst (Minibatches.__call__ chunks device false two_buffers)
    = fst (Online.__call__ samples device false two_buffers).
Proof.
  eexists. eexists. split; [reflexivity|]. split; [reflexivity|].
  pose proof (@minibatches_of_one_is_online lcg lcg_shuffle_permutes true None (Some 3) 0
                two_arrays _ _ device false two_buffers eq_refl eq_refl) as H.
  assert (Hexact : exact_count 5) by (vm_compute; discriminate).
  specialize (H Hexact (or_intror eq_refl)).
  destruct (Minibatches.__call__ _ device false two_buffers) as [[r1 order1] c'].
  destruct (Online.__call__ _ device false two_buffers) as [[r2 order2] s'].
  simpl. destruct H as (-> & -> & _). reflexivity.
Defined.

Lemma col_view_whole (a : ndarray) (hi : nat) :
  2 <= ndim a -> axis1 a <= hi -> col_view a 0 hi = a.
Proof.
  destruct a as [c b o shp strd]. unfold ndim, col_view, axis1. simpl.
  destruct shp as [|t [|n rest]]; simpl; intros Hr Hhi; try lia.
  f_equal; [lia|]. f_equal. f_equal. lia.
Qed.

Lemma col_views_whole (d : batch) (n hi : nat) :
  dataset_ok d n -> n <= hi -> col_views d 0 hi = d.
Proof.
  intros [_ H] Hhi. unfold col_views.
  induction H as [|[k a] d [Hr Ha] _ IH]; simpl; [reflexivity|].
  simpl in *. rewrite IH, col_view_whole by lia. reflexivity.
Qed.

(** X8.  With a batch size of at least the number of sequences (and at least
    one sequence) and arrays that are all of the handler's array type, a
    call of [Minibatches] yields exactly once, and what it yields are the
    arrays of the dataset themselves, under their names: nothing is
    allocated and the heap is not touched. *)
Theorem minibatches_whole_dataset `{R : RandomState} (Hperm : shuffle_permutes)
        (B : nat) (sh : bool) (v : option bool) (seed : option nat) (entropy : nat)
        (named : named_data) (self : Minibatches.t) (h : handler) (va : bool)
        (mem : heap) :
  Minibatches.__init__ B sh v seed entropy named = Ok self ->
  0 < Minibatches.nr_sequences self <= B ->
  resident h (Minibatches.data self) = true ->
  let '(r, order, _) := Minibatches.__call__ self h va mem in
  order = [0] /\ allocated r = [] /\ raised r = None /\
  yielded r = [(Minibatches.data self, mem)] /\
  as_named (Minibatches.data self) = named.
Proof.
  intros Hinit HN Hres.
  apply minibatches_init in Hinit as (Hv & _ & Hdata & _ & _ & HBs & HB63 & Hsize).
  destruct (validated_dataset _ _ Hv) as [Hd Hnamed]. rewrite <- Hdata in Hd, Hnamed.
  assert (HB' : 0 < Minibatches.batch_size self) by lia.
  assert (Hcount : exact_count (Minibatches.nr_sequences self)
                   \/ Minibatches.nr_sequences self <= Minibatches.batch_size self)
    by (right; lia).
  rewrite (minibatches_call Hperm self h va mem Hd HB63 Hsize HB' Hcount (or_introl Hres)).
  rewrite HBs, Hres.
  set (N := Minibatches.nr_sequences self) in *.
  assert (HC : (N + B - 1) / B = 1)
    by (symmetry; apply (Nat.div_unique _ B 1 (N - 1)); lia).
  rewrite HC.
  set (p := if Minibatches.shuffle self then _ else _).
  assert (Hp : Permutation (arange 1) (snd p)) by (apply order_permutation, Hperm).
  apply Permutation_length_1_inv in Hp. cbv zeta. simpl. rewrite Hp. simpl.
  rewrite (col_views_whole _ N) by (assumption || lia).
  repeat split; auto.
Qed.

Lemma minibatches_whole_dataset_witness :
  exists self,
    @Minibatches.__init__ lcg 8 true None (Some 7) 0 two_arrays = Ok self /\
    yielded (fst (fst (Minibatches.__call__ self host false two_buffers)))
    = [(arrays_of two_arrays, two_buffers)].
Proof.
  eexists. split; [reflexivity|].
  pose proof (@minibatches_whole_dataset lcg lcg_shuffle_permutes 8 true None (Some 7) 0
                two_arrays _ host false two_buffers eq_refl) as H.
  destruct (Minibatches.__call__ _ host false two_buffers) as [[r order] self'].
  simpl. destruct H as (_ & _ & _ & Hy & _); [simpl; lia | reflexivity | exact Hy].
Defined.

(** ** The progress reporter: slices of the bar and the elapsed time *)

Lemma length_append (s t : string) :
  String.length (s +++ t) = String.length s + String.length t.
Proof.
  induction s as [|c s IH]; simpl; [reflexivity | now rewrite IH].
Qed.

Lemma take_append (s t : string) : take (String.length s) (s +++ t) = s.
Proof.
  induction s as [|c s IH]; simpl; [now destruct t | now rewrite IH].
Qed.

Lemma take_all (n : nat) (s : string) : String.length s <= n -> take n s = s.
Proof.
  revert n. induction s as [|c s IH]; intros [|n] Hn; simpl in *; try reflexivity;
    try lia.
  rewrite IH by lia. reflexivity.
Qed.

Lemma take_drop (n : nat) (s : string) : take n s +++ drop n s = s.
Proof.
  revert s. induction n as [|n IH]; intros [|c s]; simpl; try reflexivity.
  now rewrite IH.
Qed.

Lemma drop_drop (a b : nat) (s : string) : drop a (drop b s) = drop (b + a) s.
Proof.
  revert s. induction b as [|b IH]; intros s; simpl; [reflexivity|].
  destruct s as [|c s]; [now destruct a | apply IH].
Qed.

Lemma take_take_drop (a b : nat) (s : string) :
  take a s +++ take b (drop a s) = take (a + b) s.
Proof.
  revert s. induction a as [|a IH]; intros s; simpl; [reflexivity|].
  destruct s as [|c s]; simpl; [now destruct b | now rewrite IH].
Qed.

Lemma length_drop (n : nat) (s : string) :
  String.length (drop n s) = String.length s - n.
Proof.
  revert s. induction n as [|n IH]; intros s; simpl; [lia|].
  destruct s as [|c s]; simpl; [reflexivity | apply IH].
Qed.

Lemma py_slice_append (s : string) (i j k : nat) :
  i <= j -> j <= k -> py_slice s i j +++ py_slice s j k = py_slice s i k.
Proof.
  intros Hij Hjk. unfold py_slice.
  replace (drop j s) with (drop (j - i) (drop i s))
    by (rewrite drop_drop; f_equal; lia).
  rewrite take_take_drop. f_equal. lia.
Qed.

Lemma py_slice_to_end (s : string) (i j : nat) :
  String.length s <= j -> py_slice s i j = drop i s.
Proof.
  intros Hj. unfold py_slice. apply take_all. rewrite length_drop. lia.
Qed.

Lemma drop_last_append (s t : string) : drop_last (String.length t) (s +++ t) = s.
Proof.
  unfold drop_last. rewrite length_append, Nat.add_sub. apply take_append.
Qed.

Lemma length_fixed_digits (w : nat) (z : Z) :
  String.length (Timedelta.fixed_digits w z) = w.
Proof.
  induction w as [|w IH]; simpl; [reflexivity | now rewrite IH].
Qed.

(** X9.  The time shown at the end of the bar is the elapsed time cut after
    the first decimal of its seconds.  When the elapsed time is a whole
    number of seconds, though, its text has no decimals: the cut then takes
    the minutes and the seconds, and only the hours and a colon are shown.
    (With less than a day elapsed there is no count of days in front.) *)
Theorem elapsed_str_format (start_time now : Z) :
  let d := Timedelta.between start_time now in
  elapsed_str start_time now
  = (if (Timedelta.microseconds d =? 0)%Z
     then Timedelta.days_str d +++ Timedelta.str_of_Z (Timedelta.hours d) +++ ":"
     else Timedelta.days_str d +++ Timedelta.str_of_Z (Timedelta.hours d) +++ ":" +++
          Timedelta.minutes_seconds d +++ "." +++
          String (Timedelta.digit (Timedelta.microseconds d / 100000)) EmptyString) /\
  ((0 <= now - start_time < 86400000000)%Z ->
   Timedelta.days_str d = EmptyString /\ (0 <= Timedelta.hours d < 24)%Z).
Proof.
  intros d. split.
  - unfold elapsed_str, Timedelta.str. fold d.
    destruct (Timedelta.microseconds d =? 0)%Z.
    + replace (Timedelta.days_str d +++ Timedelta.str_of_Z (Timedelta.hours d) +++ ":"
               +++ Timedelta.minutes_seconds d)
        with ((Timedelta.days_str d +++ Timedelta.str_of_Z (Timedelta.hours d) +++ ":")
              +++ Timedelta.minutes_seconds d)
        by (now rewrite !append_assoc_s).
      assert (H5 : String.length (Timedelta.minutes_seconds d) = 5).
      { unfold Timedelta.minutes_seconds.
        now rewrite !length_append, !length_fixed_digits. }
      rewrite <- H5 at 1. apply drop_last_append.
    + change (Timedelta.fixed_digits 6 (Timedelta.microseconds d))
        with (String (Timedelta.digit (Timedelta.microseconds d / 100000)) EmptyString
              +++ Timedelta.fixed_digits 5 (Timedelta.microseconds d)).
      set (tail := Timedelta.fixed_digits 5 (Timedelta.microseconds d)).
      assert (H5 : String.length tail = 5) by apply length_fixed_digits.
      rewrite <- !append_assoc_s. rewrite <- H5 at 1.
      rewrite drop_last_append. now rewrite !append_assoc_s.
  - intros Hday. unfold Timedelta.days_str, Timedelta.hours. subst d.
    unfold Timedelta.between. cbn [Timedelta.days Timedelta.seconds].
    rewrite Z.div_small by lia. split; [reflexivity|].
    rewrite Z.mod_small by lia.
    set (us := (now - start_time)%Z) in *.
    assert (Hs : (0 <= us / 1000000 < 86400)%Z)
      by (split; [apply Z.div_pos; lia | apply Z.div_lt_upper_bound; lia]).
    assert (Hm : (0 <= us / 1000000 / 60 < 1440)%Z)
      by (split; [apply Z.div_pos; lia | apply Z.div_lt_upper_bound; lia]).
    split; [apply Z.div_pos; lia | apply Z.div_lt_upper_bound; lia].
Qed.

(** ** The progress reporter: one pass *)

Lemma concat_str_cons (s : string) (l : list string) :
  concat_str (s :: l) = s +++ concat_str l.
Proof.
  reflexivity.
Qed.

(** Sent to a generator that stands in its loop at [i]: values that keep
    it in the loop, then one that ends the loop. *)
Lemma feed_to_end (maximum : nat) (bar : string) (start_time now : Z)
      (lv : nat -> nat) (final : nat) :
  0 < maximum ->
  level final maximum (String.length bar) = Some (lv final) ->
  String.length bar <= lv final ->
  forall vs i,
    (forall p, In p vs -> level p maximum (String.length bar) = Some (lv p) /\
                          lv p < String.length bar) ->
    Sorted le (i :: map lv (vs ++ [final])) ->
    exists outs,
      ProgressBar.feed maximum bar now (ProgressBar.InLoop start_time i) (vs ++ [final])
      = (outs, ProgressBar.AtEnd, None) /\
      List.length outs = S (List.length vs) /\
      concat_str outs = drop i bar +++ default_suffix (elapsed_str start_time now).
Proof.
  intros Hmax Hlv Hfinal. induction vs as [|p vs IH]; intros i Hvs Hs.
  - exists [py_slice bar i (lv final) +++ default_suffix (elapsed_str start_time now)].
    cbn [app ProgressBar.feed ProgressBar.send].
    destruct (Nat.eqb_spec maximum 0) as [|_]; [lia|].
    rewrite Hlv. unfold ProgressBar.resume.
    destruct (Nat.ltb_spec (lv final) (String.length bar)) as [|_]; [lia|].
    split; [reflexivity|]. split; [reflexivity|].
    rewrite concat_str_cons. simpl concat_str. rewrite append_empty_r.
    now rewrite (py_slice_to_end bar i (lv final) Hfinal).
  - destruct (Hvs p (or_introl eq_refl)) as [Hp Hlt].
    cbn [app map] in Hs.
    inversion Hs as [|? ? Hrest Hhd]; subst. inversion Hhd as [|? ? Hip]; subst.
    destruct (IH (lv p)) as (outs & Hf & Hlen & Hcat).
    { intros q Hq. apply Hvs. now right. }
    { exact Hrest. }
    exists (py_slice bar i (lv p) :: outs).
    cbn [app ProgressBar.feed ProgressBar.send].
    destruct (Nat.eqb_spec maximum 0) as [|_]; [lia|].
    rewrite Hp. unfold ProgressBar.resume.
    destruct (Nat.ltb_spec (lv p) (String.length bar)) as [_|]; [|lia].
    rewrite Hf. split; [reflexivity|]. split; [simpl; now rewrite Hlen|].
    rewrite concat_str_cons, Hcat, <- append_assoc_s. f_equal.
    rewrite <- (py_slice_to_end bar i (String.length bar + lv p)) by lia.
    rewrite <- (py_slice_to_end bar (lv p) (String.length bar + lv p)) by lia.
    apply py_slice_append; lia.
Qed.

(** X10.  One pass of the reporter.  When the levels of the values sent
    never go down, stay below the length of the bar until the last value
    and reach it with the last, the generator yields the prefix first, then
    one text per value, and these texts make up the bar, whole and in
    order, followed by the closing text with the elapsed time.  Nothing is
    raised on the way; the generator is then at its end, and one more value
    sent to it raises [StopIteration]. *)
Theorem progress_bar_complete (maximum : nat) (prefix bar : string)
        (start_time now : Z) (lv : nat -> nat) (values : list nat) (final : nat) :
  0 < maximum ->
  0 < String.length bar ->
  (forall p, In p (values ++ [final]) ->
             level p maximum (String.length bar) = Some (lv p)) ->
  Sorted le (map lv (values ++ [final])) ->
  Forall (fun p => lv p < String.length bar) values ->
  String.length bar <= lv final ->
  let '(s0, first) := ProgressBar.next prefix bar start_time now ProgressBar.Fresh in
  let '(outs, s, e) := ProgressBar.feed maximum bar now s0 (values ++ [final]) in
  first = ProgressBar.Yielded prefix /\
  e = None /\ s = ProgressBar.AtEnd /\
  List.length outs = S (List.length values) /\
  concat_str outs = bar +++ default_suffix (elapsed_str start_time now) /\
  forall later p,
    ProgressBar.send maximum bar later s p
    = (ProgressBar.Over, ProgressBar.Raised ProgressBar.StopIteration).
Proof.
  intros Hmax Hbar Hlv Hsorted Hbelow Hfinal.
  unfold ProgressBar.next, ProgressBar.resume.
  destruct (Nat.ltb_spec 0 (String.length bar)) as [_|]; [|lia].
  destruct (feed_to_end maximum bar start_time now lv final Hmax) with (vs := values)
    (i := 0) as (outs & Hf & Hlen & Hcat); auto.
  - apply Hlv, in_or_app. right. simpl. auto.
  - intros p Hp. split; [apply Hlv, in_or_app; now left|].
    rewrite Forall_forall in Hbelow. now apply Hbelow.
  - constructor; [exact Hsorted|].
    destruct (map lv (values ++ [final])); constructor. lia.
  - rewrite Hf. repeat split; auto.
Qed.

Lemma progress_bar_complete_witness :
  let '(s0, first) := ProgressBar.next default_prefix default_bar 0 2500000
                                       ProgressBar.Fresh in
  let '(outs, s, e) := ProgressBar.feed 7 default_bar 2500000 s0 [1; 2; 3; 5; 6; 9] in
  first = ProgressBar.Yielded default_prefix /\ e = None /\
  concat_str outs = default_bar +++ default_suffix "0:00:02.5".
Proof.
  pose proof (progress_bar_complete 7 default_prefix default_bar 0 2500000
                (fun p => match level p 7 50 with Some j => j | None => 0 end)
                [1; 2; 3; 5; 6] 9) as H.
  cbv zeta in H.
  destruct (ProgressBar.next default_prefix default_bar 0 2500000 ProgressBar.Fresh)
    as [s0 first].
  change ([1; 2; 3; 5; 6] ++ [9]) with [1; 2; 3; 5; 6; 9] in H.
  destruct (ProgressBar.feed 7 default_bar 2500000 s0 [1; 2; 3; 5; 6; 9])
    as [[outs s] e].
  destruct H as (Hfirst & He & _ & _ & Hcat & _).
  - lia.
  - vm_compute. lia.
  - intros p Hp. simpl in Hp.
    destruct Hp as [<- | [<- | [<- | [<- | [<- | [<- | []]]]]]]; vm_compute; reflexivity.
  - vm_compute. repeat constructor.
  - repeat (apply Forall_cons; [vm_compute; lia|]). apply Forall_nil.
  - vm_compute. lia.
  - repeat split; assumption.
Defined.

(** ** What a verbose call prints *)











